(** * Polling chat relay: dedup store, conversation memory, prompt builder
      and polling loop of [run.py], embedded and verified.

    The Python module is translated function by function.  Module-level and
    loop-local mutable state ([conversation_history], [processed_ids],
    [last_check_time], the file [processed_ids.txt]) becomes one record
    [world] threaded through a state-and-exception monad; the external
    collaborators (chat client, generation backend, wall clock, iteration
    order of a Python [set]) are oracles gathered in a record [env]. *)

From Stdlib Require Import ZArith QArith Ascii String List Lia.
From stdpp Require Import gmap strings list pretty.

Local Open Scope Z_scope.
Local Open Scope string_scope.

(** The line feed, [chr(10)]. *)
Definition nl : string := String "010"%char EmptyString.

(** ** Python string primitives (on ASCII text) *)

Module PyStr.

(** [str.isspace] on a one-character ASCII string: TAB, LF, VT, FF, CR,
    FS, GS, RS, US and the blank. *)
Definition is_space (c : ascii) : bool :=
  let n := nat_of_ascii c in
  ((9 <=? n) && (n <=? 13) || (28 <=? n) && (n <=? 32))%nat.

Fixpoint lstrip (s : string) : string :=
  match s with
  | String c t => if is_space c then lstrip t else s
  | EmptyString => EmptyString
  end.

(** White space is removed at the right end only: a blank inside the kept
    part stays. *)
Fixpoint rstrip (s : string) : string :=
  match s with
  | String c t =>
      match rstrip t with
      | EmptyString => if is_space c then EmptyString else String c EmptyString
      | t' => String c t'
      end
  | EmptyString => EmptyString
  end.

(** [s.strip()] *)
Definition strip (s : string) : string := rstrip (lstrip s).

(** [s.lower()]: the letters A..Z are moved to a..z, every other byte is
    kept. *)
Definition lower_ascii (c : ascii) : ascii :=
  let n := nat_of_ascii c in
  if ((65 <=? n) && (n <=? 90))%nat then ascii_of_nat (n + 32) else c.

Fixpoint lower (s : string) : string :=
  match s with
  | String c t => String (lower_ascii c) (lower t)
  | EmptyString => EmptyString
  end.

(** [needle in hay] *)
Fixpoint contains (needle hay : string) : bool :=
  String.prefix needle hay
  || match hay with
     | String _ t => contains needle t
     | EmptyString => false
     end.

(** [s[:n]] for [0 <= n] *)
Fixpoint take_prefix (n : nat) (s : string) : string :=
  match n, s with
  | S k, String c t => String c (take_prefix k t)
  | _, _ => EmptyString
  end.

(** Iterating a text file yields its lines, each with its line feed; the
    part after the last line feed is a line only when it is not empty. *)
Fixpoint readlines (s : string) : list string :=
  match s with
  | EmptyString => []
  | String c t =>
      if Ascii.eqb c "010"%char then String c EmptyString :: readlines t
      else match readlines t with
           | [] => [String c EmptyString]
           | l :: ls => String c l :: ls
           end
  end.

Definition digit_value (c : ascii) : option Z :=
  let n := nat_of_ascii c in
  if ((48 <=? n) && (n <=? 57))%nat then Some (Z.of_nat (n - 48)) else None.

(** The digits of a decimal literal after its first digit: a digit, or one
    underscore followed by a digit. [acc] is the value read so far. *)
Fixpoint int_digits (acc : Z) (s : string) : option Z :=
  match s with
  | EmptyString => Some acc
  | String c t =>
      match digit_value c with
      | Some d => int_digits (10 * acc + d) t
      | None =>
          if Ascii.eqb c "_"%char then
            match t with
            | String c' t' =>
                match digit_value c' with
                | Some d => int_digits (10 * acc + d) t'
                | None => None
                end
            | EmptyString => None
            end
          else None
      end
  end.

Definition int_unsigned (s : string) : option Z :=
  match s with
  | String c t =>
      match digit_value c with
      | Some d => int_digits d t
      | None => None
      end
  | EmptyString => None
  end.

(** [int(s)] in base ten: optional surrounding white space, an optional
    sign, digits with single underscores between them.  [None] stands for
    [ValueError]. *)
Definition int (s : string) : option Z :=
  match strip s with
  | String "+" t => int_unsigned t
  | String "-" t => Z.opp <$> int_unsigned t
  | t => int_unsigned t
  end.

End PyStr.

(** [l[-n:]] for a positive [n]: the last [n] items, all of [l] when it is
    shorter. *)
Definition py_last {A} (n : nat) (l : list A) : list A :=
  drop (length l - n) l.

(** ** Deduplication store *)

(** [processed_ids.txt]: [None] when the file does not exist, otherwise its
    text as Python decodes it, line ends already translated to line feeds.
    Reading an existing file goes through; a write may fail, see
    [save_processed_id]. *)
Definition file := option string.

(** The text of the file, empty when it does not exist. *)
Definition file_text (f : file) : string := default "" f.

(** The generator of line 23, run to its end: every line that is not blank
    is converted, and the first conversion that fails ends the run with
    [ValueError]. *)
Fixpoint parse_ids (lines : list string) : option (list Z) :=
  match lines with
  | [] => Some []
  | line :: rest =>
      if String.eqb (PyStr.strip line) "" then parse_ids rest
      else match PyStr.int (PyStr.strip line) with
           | Some n => cons n <$> parse_ids rest
           | None => None
           end
  end.

(** [load_processed_ids()]: the whole read sits in one [try] whose bare
    [except] passes, after which the empty set is returned. *)
Definition load_processed_ids (f : file) : gset Z :=
  match f with
  | Some content =>
      match parse_ids (PyStr.readlines content) with
      | Some ids => list_to_set ids
      | None => ∅
      end
  | None => ∅
  end.

(** [save_processed_id(msg_id)]: opens in append mode, which creates a
    missing file, and writes the id and a line feed.  The open and the
    write sit in a [try] whose bare [except] passes: [written] tells
    whether they went through, and a failure leaves the file as it was and
    is not reported. *)
Definition save_processed_id (written : bool) (msg_id : Z) (f : file) : file :=
  if written then Some (file_text f +:+ pretty msg_id +:+ nl) else f.

(** ** Conversation memory and prompt builder *)

Definition MAX_HISTORY : nat := 10.

(** One turn, [(role, message)]. *)
Definition turn : Type := string * string.

(** [conversation_history], a [defaultdict(list)] keyed by the sender id. *)
Abbreviation history_store := (gmap Z (list turn)).

(** [conversation_history[user_id]] read as a value: a missing key reads as
    the empty list. *)
Definition history_of (h : history_store) (user_id : Z) : list turn :=
  default [] (h !! user_id).

(** Subscripting a [defaultdict] also stores the default under a missing
    key. *)
Definition touch (user_id : Z) (h : history_store) : history_store :=
  <[user_id := history_of h user_id]> h.

(** [update_history(user_id, role, message)] *)
Definition update_history (user_id : Z) (role message : string)
    (h : history_store) : history_store :=
  let h1 := <[user_id := (history_of h user_id ++ [(role, message)])%list]> h in
  if (MAX_HISTORY * 2 <? length (history_of h1 user_id))%nat
  then <[user_id := py_last (MAX_HISTORY * 2) (history_of h1 user_id)]> h1
  else h1.

(** The body of the [for] loop of lines 49-50:
    [history_text += f"{role}: {msg}\n"]. *)
Definition add_line (history_text : string) (t : turn) : string :=
  history_text +:+ t.1 +:+ ": " +:+ t.2 +:+ nl.

(** Lines 46-51: the text of the history block. *)
Definition render_history (history : list turn) : string :=
  match history with
  | [] => ""
  | _ :: _ =>
      foldl add_line ("Previous conversation:" +:+ nl)
        (py_last MAX_HISTORY history) +:+ nl
  end.

Definition instruction_suffix : string :=
  nl +:+ nl
  +:+ "    Please respond appropriately based on the context and previous conversation.".

(** The f-string of lines 54-58. *)
Definition prompt_template (knowledge history_text current_message : string)
    : string :=
  knowledge +:+ nl +:+ nl +:+ "    " +:+ history_text
  +:+ "Current message: " +:+ current_message +:+ instruction_suffix.

(** [build_prompt_with_history(user_id, current_message)], with
    [RAG.KNOWLEDGE] as a parameter: the prompt, and the store after the
    subscript of line 44. *)
Definition build_prompt_with_history (knowledge : string) (user_id : Z)
    (current_message : string) (h : history_store) : string * history_store :=
  let h' := touch user_id h in
  let history := history_of h' user_id in
  (prompt_template knowledge (render_history history) current_message, h').

(** ** Messages, backend traffic and events *)

Record message := Message {
  msg_id : Z;
  sender_id : Z;
  text : option string;
  out : bool;
  is_private : bool
}.

(** The request dictionary of lines 154-162. *)
Record rpc_request := RpcRequest {
  jsonrpc : string;
  method : string;
  knowledge : string;
  prompt : string;
  request_id : Z
}.

(** An instance of a subclass of Python's [Exception], with its text: what
    [except Exception] catches.  [KeyboardInterrupt] and [SystemExit], which
    end the process, are outside the model. *)
Inductive pyexn := Exception (description : string).

Inductive outcome (A : Type) :=
  | Returned (a : A)
  | Raised (ex : pyexn).
Arguments Returned {A} a.
Arguments Raised {A} ex.

(** The value under ['result']: a dictionary with a ['content'] entry, or
    anything else, given by its [str()]. *)
Inductive result_value :=
  | ResultContent (content : string)
  | ResultOther (as_str : string).

(** The value under ['error']: a dictionary, whose ['message'] entry may be
    missing; a dictionary whose ['message'] is not a string (given by its
    [str()]); or a value without [get]. *)
Inductive error_value :=
  | ErrorDict (message : option string)
  | ErrorDictOddMessage (as_str : string)
  | ErrorOther.

(** What the backend call returns: a dictionary, of which only the two keys
    the program looks at are kept, or a value of another type. *)
Record response_dict := ResponseDict {
  result : option result_value;
  error : option error_value
}.

Inductive response :=
  | RDict (d : response_dict)
  | ROther (type_name : string).

(** Console lines, one constructor per [print] of the polling part. *)
Inductive console :=
  | PStarting
  | PLoaded (count : nat)
  | PLastId (last_id : Z)
  | PProcessing (id : Z) (head : string)
  | PSending
  | PReplied (id : Z)
  | PGeminiError (error_msg : string)
  | PUnexpected (type_name : string)
  | PGeminiCrash (ex : pyexn)
  | PCleanup
  | PLoopError (ex : pyexn).

(** What the process does to the outside, in order. *)
Inductive event :=
  | EPrint (line : console)
  | EGetMessages (limit : nat)
  | EGenerate (rpc : rpc_request)
  | EReply (to : Z) (body : string)
  | EClock (now : Q)
  | ESleep (seconds : Z).

(** The collaborators.  Each answer may depend on how many events came
    before the call, so an oracle can answer the same question differently
    at different times.  [write_succeeds n] tells whether the write to
    [processed_ids.txt] made after [n] earlier ones goes through. *)
Record env := Env {
  KNOWLEDGE : string;
  get_messages : nat -> nat -> outcome (list message);
  generate_G2_flash : nat -> rpc_request -> outcome response;
  reply : nat -> message -> string -> outcome unit;
  time_time : nat -> Q;
  set_order : gset Z -> list Z;
  write_succeeds : nat -> bool
}.

(** [list(s)] lists each element of the set [s] once, in an order the
    program does not control. *)
Definition env_ok (e : env) : Prop :=
  forall s : gset Z, set_order e s ≡ₚ elements s.

(** The mutable state of the polling part. *)
Record world := World {
  processed_ids : gset Z;
  processed_file : file;
  conversation_history : history_store;
  last_check_time : Q;
  trace : list event;
  write_attempts : nat
}.

Definition initial_world (f : file) : world :=
  World ∅ f ∅ (0 # 1) [] 0.

(** ** State and exception monad *)

Definition M (A : Type) : Type := world -> outcome A * world.

Definition ret {A} (a : A) : M A := fun w => (Returned a, w).

Definition bind {A B} (m : M A) (k : A -> M B) : M B :=
  fun w =>
    match m w with
    | (Returned a, w') => k a w'
    | (Raised ex, w') => (Raised ex, w')
    end.

Definition raise {A} (ex : pyexn) : M A := fun w => (Raised ex, w).

(** [try: m except Exception as ex: handler ex]; what [m] did to the state
    before raising stays done. *)
Definition try_except {A} (m : M A) (handler : pyexn -> M A) : M A :=
  fun w =>
    match m w with
    | (Returned a, w') => (Returned a, w')
    | (Raised ex, w') => handler ex w'
    end.

Notation "x <- m ;; k" := (bind m (fun x => k))
  (at level 100, m at next level, right associativity).
Notation "m ;; k" := (bind m (fun _ => k))
  (at level 100, right associativity).

Definition get : M world := fun w => (Returned w, w).

Definition emit (ev : event) : M unit :=
  fun w => (Returned tt,
            World (processed_ids w) (processed_file w) (conversation_history w)
              (last_check_time w) (trace w ++ [ev])%list (write_attempts w)).

Definition set_processed_ids (s : gset Z) : M unit :=
  fun w => (Returned tt,
            World s (processed_file w) (conversation_history w)
              (last_check_time w) (trace w) (write_attempts w)).

(** One write attempt on the log, counted, leaving [f] as the file. *)
Definition set_processed_file (f : file) : M unit :=
  fun w => (Returned tt,
            World (processed_ids w) f (conversation_history w)
              (last_check_time w) (trace w) (S (write_attempts w))).

Definition set_conversation_history (h : history_store) : M unit :=
  fun w => (Returned tt,
            World (processed_ids w) (processed_file w) h
              (last_check_time w) (trace w) (write_attempts w)).

Definition set_last_check_time (t : Q) : M unit :=
  fun w => (Returned tt,
            World (processed_ids w) (processed_file w) (conversation_history w)
              t (trace w) (write_attempts w)).

Definition of_outcome {A} (o : outcome A) : M A := fun w => (o, w).

Definition print (line : console) : M unit := emit (EPrint line).

(** [time.sleep(seconds)] *)
Definition sleep (seconds : Z) : M unit := emit (ESleep seconds).

(** [time.time()] *)
Definition call_time (e : env) : M Q :=
  w <- get ;;
  let now := time_time e (length (trace w)) in
  emit (EClock now) ;; ret now.

(** [client.get_messages(None, limit=limit)] *)
Definition call_get_messages (e : env) (limit : nat) : M (list message) :=
  w <- get ;;
  emit (EGetMessages limit) ;;
  of_outcome (get_messages e (length (trace w)) limit).

(** [generate_G2_flash(rpc_request)] *)
Definition call_generate (e : env) (rpc : rpc_request) : M response :=
  w <- get ;;
  emit (EGenerate rpc) ;;
  of_outcome (generate_G2_flash e (length (trace w)) rpc).

(** [msg.reply(reply_text)] *)
Definition call_reply (e : env) (msg : message) (reply_text : string) : M unit :=
  w <- get ;;
  emit (EReply (msg_id msg) reply_text) ;;
  of_outcome (reply e (length (trace w)) msg reply_text).

(** The pair of statements [processed_ids.add(id); save_processed_id(id)]:
    the id goes into the set whether or not the write goes through. *)
Definition mark_processed (e : env) (id : Z) : M unit :=
  w <- get ;;
  set_processed_ids ({[id]} ∪ processed_ids w) ;;
  set_processed_file
    (save_processed_id (write_succeeds e (write_attempts w)) id
       (processed_file w)).

(** [for x in xs: body x] *)
Fixpoint for_each {A} (xs : list A) (body : A -> M unit) : M unit :=
  match xs with
  | [] => ret tt
  | x :: rest => body x ;; for_each rest body
  end.

(** ** Polling loop *)

(** [bool(msg.text)]: the text is present and not empty. *)
Definition has_text (msg : message) : bool :=
  match text msg with
  | Some (String _ _) => true
  | _ => false
  end.

(** [msg.text] where it is used as a string. *)
Definition msg_text (msg : message) : string := default "" (text msg).

(** The test of line 145. *)
Definition skipped (msg : message) (ids : gset Z) : bool :=
  out msg || negb (has_text msg) || bool_decide (msg_id msg ∈ ids).

(** Lines 154-162. *)
Definition make_request (e : env) (msg : message) (prompt_with_history : string)
    : rpc_request :=
  RpcRequest "2.0" "generate_content" (KNOWLEDGE e) prompt_with_history
    (sender_id msg).

(** Lines 173-176. *)
Definition reply_text_of (r : result_value) : string :=
  match r with
  | ResultContent content => content
  | ResultOther as_str => as_str
  end.

(** Lines 185-190, the ['error'] branch. *)
Definition handle_error (e : env) (msg : message) (err : error_value)
    : M unit :=
  match err with
  | ErrorDict message =>
      let error_msg := default "Unknown error" message in
      print (PGeminiError error_msg) ;;
      if negb (PyStr.contains "method" (PyStr.lower error_msg))
      then mark_processed e (msg_id msg)
      else ret tt
  | ErrorDictOddMessage as_str =>
      print (PGeminiError as_str) ;;
      raise (Exception "AttributeError")
  | ErrorOther => raise (Exception "AttributeError")
  end.

(** Lines 169-192: what is done with the value the backend returned. *)
Definition handle_response (e : env) (msg : message) (r : response) : M unit :=
  match r with
  | RDict d =>
      match result d with
      | Some res =>
          call_reply e msg (reply_text_of res) ;;
          print (PReplied (msg_id msg)) ;;
          mark_processed e (msg_id msg)
      | None =>
          match error d with
          | Some err => handle_error e msg err
          | None => ret tt
          end
      end
  | ROther type_name => print (PUnexpected type_name)
  end.

(** Lines 149-195: the body of [if msg.is_private:]. *)
Definition handle_private (e : env) (msg : message) : M unit :=
  print (PProcessing (msg_id msg) (PyStr.take_prefix 50 (msg_text msg))) ;;
  w <- get ;;
  set_conversation_history
    (update_history (sender_id msg) "User" (msg_text msg)
       (conversation_history w)) ;;
  w1 <- get ;;
  let built :=
    build_prompt_with_history (KNOWLEDGE e) (sender_id msg) (msg_text msg)
      (conversation_history w1) in
  set_conversation_history built.2 ;;
  print PSending ;;
  try_except
    (r <- call_generate e (make_request e msg built.1) ;;
     handle_response e msg r)
    (fun ex => print (PGeminiCrash ex)).

(** Lines 145-198: one iteration of the [for] loop. *)
Definition process_message (e : env) (msg : message) : M unit :=
  w <- get ;;
  if skipped msg (processed_ids w) then ret tt
  else
    (if is_private msg then handle_private e msg else ret tt) ;;
    mark_processed e (msg_id msg).

(** Lines 139-142: [for msg in reversed(messages)]. *)
Definition process_batch (e : env) (messages : list message) : M unit :=
  for_each (reverse messages) (process_message e).

(** [a < b] on clock readings. *)
Definition Qlt_bool (a b : Q) : bool := negb (Qle_bool b a).

(** Lines 203-207. *)
Definition periodic_cleanup (e : env) : M unit :=
  now <- call_time e ;;
  w <- get ;;
  if Qlt_bool (600 # 1) (now - last_check_time w) then
    print PCleanup ;;
    (if (1000 <? size (processed_ids w))%nat
     then set_processed_ids
            (list_to_set (py_last 1000 (set_order e (processed_ids w))))
     else ret tt) ;;
    t <- call_time e ;;
    set_last_check_time t
  else ret tt.

(** Lines 137-207: the body of the [try] inside [while True]. *)
Definition poll_cycle (e : env) : M unit :=
  messages <- call_get_messages e 20 ;;
  process_batch e messages ;;
  sleep 2 ;;
  periodic_cleanup e.

(** Lines 136-211: one turn of [while True], with its handler. *)
Definition guarded_cycle (e : env) : M unit :=
  try_except (poll_cycle e)
    (fun ex => print (PLoopError ex) ;; sleep 5).

(** [while True], cut after [fuel] turns. *)
Fixpoint main_loop (e : env) (fuel : nat) : M unit :=
  match fuel with
  | O => ret tt
  | S n => guarded_cycle e ;; main_loop e n
  end.

(** Lines 118-131: what precedes the loop once the session is authorized. *)
Definition start_polling (e : env) : M unit :=
  print PStarting ;;
  w <- get ;;
  set_processed_ids (load_processed_ids (processed_file w)) ;;
  print (PLoaded (size (load_processed_ids (processed_file w)))) ;;
  try_except
    (last_messages <- call_get_messages e 1 ;;
     match last_messages with
     | m :: _ => print (PLastId (msg_id m))
     | [] => ret tt
     end)
    (fun _ => ret tt) ;;
  t <- call_time e ;;
  set_last_check_time t.

(** ** Observations on traces *)

(** The ids of the messages replied to, in the order of the calls. *)
Fixpoint replied_ids (evs : list event) : list Z :=
  match evs with
  | [] => []
  | EReply to _ :: rest => to :: replied_ids rest
  | _ :: rest => replied_ids rest
  end.

(** The prompts sent to the backend, in the order of the calls. *)
Fixpoint prompts_sent (evs : list event) : list string :=
  match evs with
  | [] => []
  | EGenerate rpc :: rest => prompt rpc :: prompts_sent rest
  | _ :: rest => prompts_sent rest
  end.

(** The lengths of the sleeps, in order. *)
Fixpoint sleeps (evs : list event) : list Z :=
  match evs with
  | [] => []
  | ESleep seconds :: rest => seconds :: sleeps rest
  | _ :: rest => sleeps rest
  end.

(** The text of the dedup log, empty for a missing file. *)
Definition log_text (w : world) : string := file_text (processed_file w).

(** What was emitted between the state [w] and a later state [w']. *)
Definition events_since (w w' : world) : list event :=
  drop (length (trace w)) (trace w').

(** Lines 149-167 alone: the statements of [handle_private] up to the
    backend call, and the value that call returns or the exception it
    raises for [msg] in the state [w]. *)
Definition ask_backend (e : env) (msg : message) : M response :=
  print (PProcessing (msg_id msg) (PyStr.take_prefix 50 (msg_text msg))) ;;
  w <- get ;;
  set_conversation_history
    (update_history (sender_id msg) "User" (msg_text msg)
       (conversation_history w)) ;;
  w1 <- get ;;
  let built :=
    build_prompt_with_history (KNOWLEDGE e) (sender_id msg) (msg_text msg)
      (conversation_history w1) in
  set_conversation_history built.2 ;;
  print PSending ;;
  call_generate e (make_request e msg built.1).

Definition backend_answer (e : env) (msg : message) (w : world)
    : outcome response :=
  (ask_backend e msg w).1.

(** What [msg.reply(body)] does when it is called right after the backend
    call for [msg] made in the state [w]. *)
Definition reply_answer (e : env) (msg : message) (body : string) (w : world)
    : outcome unit :=
  ((ask_backend e msg ;; call_reply e msg body) w).1.

(** ** Sample collaborators *)

Module Samples.

(** A backend that answers every call with the same value, a chat client
    whose [reply] either always works or always raises, a clock that shows
    [now], no pending messages, and a log that takes every write. *)
Definition constant_env (answer : outcome response) (replying : outcome unit)
    (now : Q) : env :=
  Env "K" (fun _ _ => Returned []) (fun _ _ => answer) (fun _ _ _ => replying)
    (fun _ => now) elements (fun _ => true).

Definition result_dict (r : result_value) : response :=
  RDict (ResponseDict (Some r) None).

Definition error_dict (err : error_value) : response :=
  RDict (ResponseDict None (Some err)).

(** The backend answers [{"error": {"message": "no such method"}}]. *)
Definition env_method_error : env :=
  constant_env (Returned (error_dict (ErrorDict (Some "no such method"))))
    (Returned tt) (0 # 1).

(** The backend answers [{"result": {"content": "Hi"}}]; replies work. *)
Definition env_hi : env :=
  constant_env (Returned (result_dict (ResultContent "Hi"))) (Returned tt)
    (0 # 1).

(** The same backend; [reply] raises. *)
Definition env_hi_reply_fails : env :=
  constant_env (Returned (result_dict (ResultContent "Hi")))
    (Raised (Exception "ConnectionError")) (0 # 1).

(** Every fetch raises. *)
Definition env_offline : env :=
  Env "K" (fun _ _ => Raised (Exception "ConnectionError"))
    (fun _ _ => Raised (Exception "ConnectionError"))
    (fun _ _ _ => Raised (Exception "ConnectionError")) (fun _ => 0 # 1)
    elements (fun _ => true).

(** Replies work and the clock shows 700 seconds. *)
Definition env_late : env :=
  constant_env (Returned (result_dict (ResultContent "Hi"))) (Returned tt)
    (700 # 1).

(** The ids 0 to 1000, one more than the cleanup keeps. *)
Definition many_ids : gset Z := list_to_set (seqZ 0 1001).

(** An inbound private message with id 42 and text "Hello". *)
Definition hello : message := Message 42 7 (Some "Hello") false true.

(** The same message in a group chat. *)
Definition hello_group : message := Message 42 7 (Some "Hello") false false.

(** A later private message of another user. *)
Definition howdy : message := Message 43 8 (Some "Howdy") false true.

(** Every poll fetches [howdy] and [hello], newest first; the backend
    answers "Hi", replies work, the log takes every write. *)
Definition env_inbox : env :=
  Env "K" (fun _ _ => Returned [howdy; hello])
    (fun _ _ => Returned (result_dict (ResultContent "Hi")))
    (fun _ _ _ => Returned tt) (fun _ => 0 # 1) elements (fun _ => true).

(** The same, with a log that refuses every write. *)
Definition env_disk_full : env :=
  Env "K" (fun _ _ => Returned [howdy; hello])
    (fun _ _ => Returned (result_dict (ResultContent "Hi")))
    (fun _ _ _ => Returned tt) (fun _ => 0 # 1) elements (fun _ => false).

End Samples.

(** The state a computation ends in. *)
Definition exec {A} (m : M A) (w : world) : world := (m w).2.

(** The turns appended for [user], oldest first, in a sequence of calls
    [update_history(user_id, role, message)]. *)
Definition turns_of (user : Z) (appends : list (Z * turn)) : list turn :=
  (filter (fun a => a.1 = user) appends).*2.

(** The store after the calls of [appends], made in order. *)
Definition run_appends (appends : list (Z * turn)) (h : history_store)
    : history_store :=
  foldl (fun h a => update_history a.1 a.2.1 a.2.2 h) h appends.

(** One rendered turn, [f"{role}: {msg}\\n"]. *)
Definition turn_line (t : turn) : string := t.1 +:+ ": " +:+ t.2 +:+ nl.

(** The rendered turns one after the other. *)
Definition lines_of (turns : list turn) : string :=
  foldr (fun t rest => turn_line t +:+ rest) "" turns.

(** The backend answers every call with a dictionary that has a
    ['result']. *)
Definition always_result (e : env) : Prop :=
  forall n rpc, exists d res,
    generate_G2_flash e n rpc = Returned (RDict d) /\ result d = Some res.

(** ** The log file as the program writes it *)

(** The text is empty or ends with a line feed: what every text written by
    [save_processed_id] alone looks like. *)
Fixpoint terminated (s : string) : bool :=
  match s with
  | EmptyString => true
  | String c t =>
      match t with
      | EmptyString => Ascii.eqb c "010"%char
      | String _ _ => terminated t
      end
  end.

(** Every character is a decimal digit. *)
Fixpoint all_digits (s : string) : bool :=
  match s with
  | EmptyString => true
  | String c t =>
      match PyStr.digit_value c with
      | Some _ => all_digits t
      | None => false
      end
  end.

(** The number a string of decimal digits denotes, read after [acc]. *)
Fixpoint eval_digits (acc : Z) (s : string) : Z :=
  match s with
  | EmptyString => acc
  | String c t => eval_digits (10 * acc + default 0 (PyStr.digit_value c)) t
  end.

(** No character is white space. *)
Fixpoint plain (s : string) : bool :=
  match s with
  | EmptyString => true
  | String c t => negb (PyStr.is_space c) && plain t
  end.

(** A log that [load_processed_ids] reads in full: it ends with a line feed
    (or is empty or missing) and each of its lines is blank or an
    integer. *)
Definition loadable (f : file) : Prop :=
  terminated (file_text f) = true
  /\ is_Some (parse_ids (PyStr.readlines (file_text f))).

(** The file after [save_processed_id] was called for each of [calls], in
    order; a call is the id with whether its write went through. *)
Definition saves (calls : list (bool * Z)) (f : file) : file :=
  foldl (fun f call => save_processed_id call.1 call.2 f) f calls.

(** The ids of the calls whose write went through. *)
Definition written_ids (calls : list (bool * Z)) : list Z :=
  (filter (fun call => call.1 = true) calls).*2.

(** A log that holds the ids of [Samples.many_ids], one line each. *)
Definition many_log : file :=
  saves ((fun id => (true, id)) <$> seqZ 0 1001) None.

(** The log takes every write. *)
Definition store_reliable (e : env) : Prop :=
  forall n, write_succeeds e n = true.

(** The line written for [id], or nothing when the write failed. *)
Definition written_line (written : bool) (id : Z) : string :=
  if written then pretty id +:+ nl else "".

(** The limits of the fetches, in order. *)
Fixpoint fetches (evs : list event) : list nat :=
  match evs with
  | [] => []
  | EGetMessages limit :: rest => limit :: fetches rest
  | _ :: rest => fetches rest
  end.

(** Lines 118-211 with the loop cut after [fuel] turns. *)
Definition polling (e : env) (fuel : nat) : M unit :=
  start_polling e ;; main_loop e fuel.

(** ** Session and login: lines 74-116 and 212-213 of [main] *)

(** What [telegram_login_request] returns beside the status: the two
    entries the program reads. *)
Record login_reply := LoginReply {
  phone_code_hash : string;
  temp_session : string
}.

(** The dictionary of lines 96-101. *)
Record confirm_body := ConfirmBody {
  phone : string;
  code : string;
  body_phone_code_hash : string;
  body_temp_session : string
}.

(** What [telegram_login_confirm] returns beside the status. *)
Record confirm_reply := ConfirmReply {
  username : string;
  access_token : string
}.

(** Console lines of the login part. *)
Inductive login_console :=
  | LNotAuthorized
  | LStatus (status : Z) (res : login_reply)
  | LLoginSuccessful (name : string)
  | LLoginFailed (c_res : confirm_reply)
  | LAlreadyLoggedIn.

(** What the login part does to the outside.  A client is named by the
    session string it was made from. *)
Inductive login_event :=
  | LGetClient (session_string : string)
  | LPrint (line : login_console)
  | LInput (prompt_text : string)
  | LLoginRequest (phone_number : string)
  | LLoginConfirm (body : confirm_body)
  | LWriteSession (token : string)
  | LDisconnect (session_string : string).

(** The collaborators of the login part; the first argument counts the
    calls of [main] made before. *)
Record login_env := LoginEnv {
  is_user_authorized : nat -> string -> bool;
  input : nat -> string -> string;
  telegram_login_request : nat -> string -> Z * login_reply;
  telegram_login_confirm : nat -> confirm_body -> Z * confirm_reply
}.

(** How a call of [main] goes on after its login part: it returns at line
    114, or it reaches line 118 and polls with the client of that call, or
    the model stops because the restarts allowed are used up. *)
Inductive main_end :=
  | LoginFailed
  | Polls (session_string : string)
  | Unfinished.

Record main_run := MainRun {
  ending : main_end;
  session_file : option string;
  login_trace : list login_event
}.

(** Lines 75-82: the session string read from [session.txt]. *)
Definition read_session (session : option string) : string :=
  match session with
  | Some content => PyStr.strip content
  | None => ""
  end.

Definition phone_prompt : string := "Please enter your phone: ".
Definition code_prompt : string := "Enter the code you received: ".

(** [main()] up to the polling part, with the [finally] of lines 212-213.
    [restarts] bounds the depth of [return main()]; [calls] counts the
    calls made before; [session] is the content of [session.txt]. *)
Fixpoint main (restarts : nat) (le : login_env) (calls : nat)
    (session : option string) : main_run :=
  let session_string := read_session session in
  let start := [LGetClient session_string] in
  if is_user_authorized le calls session_string then
    MainRun (Polls session_string) session
      (start ++ [LPrint LAlreadyLoggedIn])%list
  else
    let phone := input le calls phone_prompt in
    let request := telegram_login_request le calls phone in
    let asked :=
      (start ++ [LPrint LNotAuthorized; LInput phone_prompt;
                 LLoginRequest phone; LPrint (LStatus request.1 request.2)])%list in
    if (request.1 =? 200)%Z then
      let code := input le calls code_prompt in
      let body :=
        ConfirmBody phone code (phone_code_hash request.2)
          (temp_session request.2) in
      let confirm := telegram_login_confirm le calls body in
      let confirmed := (asked ++ [LInput code_prompt; LLoginConfirm body])%list in
      if (confirm.1 =? 200)%Z then
        let new_token := access_token confirm.2 in
        let written :=
          (confirmed ++ [LPrint (LLoginSuccessful (username confirm.2));
                         LWriteSession new_token;
                         LDisconnect session_string])%list in
        match restarts with
        | O => MainRun Unfinished (Some new_token) written
        | S n =>
            let inner := main n le (S calls) (Some new_token) in
            MainRun (ending inner) (session_file inner)
              (written ++ login_trace inner
               ++ match ending inner with
                  | LoginFailed => [LDisconnect session_string]
                  | _ => []
                  end)%list
        end
      else
        MainRun LoginFailed session
          (confirmed ++ [LPrint (LLoginFailed confirm.2);
                         LDisconnect session_string])%list
    else MainRun (Polls session_string) session asked.

(** The clients made, the clients disconnected and the tokens written, in
    order. *)
Fixpoint clients_made (evs : list login_event) : list string :=
  match evs with
  | [] => []
  | LGetClient s :: rest => s :: clients_made rest
  | _ :: rest => clients_made rest
  end.

Fixpoint clients_disconnected (evs : list login_event) : list string :=
  match evs with
  | [] => []
  | LDisconnect s :: rest => s :: clients_disconnected rest
  | _ :: rest => clients_disconnected rest
  end.

Fixpoint tokens_written (evs : list login_event) : list string :=
  match evs with
  | [] => []
  | LWriteSession t :: rest => t :: tokens_written rest
  | _ :: rest => tokens_written rest
  end.

Fixpoint confirms_made (evs : list login_event) : list confirm_body :=
  match evs with
  | [] => []
  | LLoginConfirm b :: rest => b :: confirms_made rest
  | _ :: rest => confirms_made rest
  end.

(** Sample login collaborators: nobody is authorized, the request is
    answered with [request_status] and the confirmation with
    [confirm_status]. *)
Definition sample_login (request_status confirm_status : Z) : login_env :=
  LoginEnv (fun _ _ => false) (fun _ _ => "x")
    (fun _ _ => (request_status, LoginReply "h" "t"))
    (fun _ _ => (confirm_status, ConfirmReply "u" "tok")).

(** Nobody is authorized; the first call of [main] logs in and gets the
    token " tok ", the restarted call has its confirmation refused. *)
Definition login_then_refusal : login_env :=
  LoginEnv (fun _ _ => false) (fun _ _ => "x")
    (fun _ _ => (200, LoginReply "h" "t"))
    (fun calls _ =>
       (match calls with O => 200 | S _ => 500 end, ConfirmReply "u" " tok ")).

(** ** State predicates *)

(** A predicate on the set, the log and the memory, read on a state. *)
Definition holds (I : gset Z -> file -> history_store -> Prop) (w : world)
    : Prop :=
  I (processed_ids w) (processed_file w) (conversation_history w).

(** The log can be loaded and holds every id of the set. *)
Definition durable (ids : gset Z) (f : file) (h : history_store) : Prop :=
  loadable f /\ ids ⊆ load_processed_ids f.

(** Every user's history has at most [2 * MAX_HISTORY] turns, all of them
    with the role "User". *)
Definition user_turns_only (ids : gset Z) (f : file) (h : history_store)
    : Prop :=
  forall u, (length (history_of h u) <= MAX_HISTORY * 2)%nat
            /\ forall t, t ∈ history_of h u -> t.1 = "User".

(** [m] is among the messages some fetch of the loop returns. *)
Definition fetched (e : env) (m : message) : Prop :=
  exists n messages, get_messages e n 20 = Returned messages /\ m ∈ messages.

(** [t] is the turn line 152 stores for an incoming private message of
    [u] that the loop fetched: the role "User" with the text of the
    message. *)
Definition fetched_user_turn (e : env) (u : Z) (t : turn) : Prop :=
  exists m, fetched e m /\ is_private m = true /\ out m = false
            /\ sender_id m = u /\ t = ("User", msg_text m).

(** Every stored turn was in the memory [h0] or is the turn of a fetched
    message. *)
Definition turns_from (e : env) (h0 : history_store) (ids : gset Z) (f : file)
    (h : history_store) : Prop :=
  forall u t, t ∈ history_of h u ->
              t ∈ history_of h0 u \/ fetched_user_turn e u t.

(** The log starts with the text [before]. *)
Definition extends_log (before : string) (ids : gset Z) (f : file)
    (h : history_store) : Prop :=
  exists written, file_text f = before +:+ written.

(** No clock reading is more than 600 seconds after the last check of [w]:
    the cleanup is never due. *)
Definition no_cleanup_due (e : env) (w : world) : Prop :=
  forall n, Qlt_bool (600 # 1) (time_time e n - last_check_time w) = false.

(** From [w], emitting [evs], to [w']: the set only grew, the last check
    is the same, and the ids replied to are distinct, were not in the set
    and now are. *)
Definition fresh_step (w : world) (evs : list event) (w' : world) : Prop :=
  trace w' = (trace w ++ evs)%list
  /\ NoDup (replied_ids evs)
  /\ (forall x, x ∈ replied_ids evs ->
        (x ∉ processed_ids w) /\ (x ∈ processed_ids w'))
  /\ processed_ids w ⊆ processed_ids w'
  /\ last_check_time w' = last_check_time w.

(** The replies, with their texts, in the order of the calls. *)
Fixpoint replies (evs : list event) : list (Z * string) :=
  match evs with
  | [] => []
  | EReply to body :: rest => (to, body) :: replies rest
  | _ :: rest => replies rest
  end.

(** The reply that lines 169-178 send for what the backend did: one for a
    dictionary with a ['result'], none otherwise. *)
Definition expected_replies (msg : message) (answer : outcome response)
    : list (Z * string) :=
  match answer with
  | Returned (RDict d) =>
      match result d with
      | Some res => [(msg_id msg, reply_text_of res)]
      | None => []
      end
  | _ => []
  end.

(** Whether lines 181-182 or 189-190 run for [msg] in the state [w]: the
    first record of the id, before the one of lines 197-198. *)
Definition records_in_branch (e : env) (msg : message) (w : world) : bool :=
  is_private msg
  && match backend_answer e msg w with
     | Returned (RDict d) =>
         match result d with
         | Some res =>
             match reply_answer e msg (reply_text_of res) w with
             | Returned _ => true
             | Raised _ => false
             end
         | None =>
             match error d with
             | Some (ErrorDict message) =>
                 negb (PyStr.contains "method"
                         (PyStr.lower (default "Unknown error" message)))
             | _ => false
             end
         end
     | _ => false
     end.

(** * Properties *)

(** ** Strings *)

Lemma append_cons (x : ascii) (a b : string) :
  String x a +:+ b = String x (a +:+ b).
Proof. reflexivity. Qed.

Lemma append_nil_l (a : string) : "" +:+ a = a.
Proof. reflexivity. Qed.

Lemma append_assoc (a b c : string) : (a +:+ b) +:+ c = a +:+ (b +:+ c).
Proof.
  induction a as [|x a IH]; [reflexivity|]. now rewrite !append_cons, IH.
Qed.

Lemma append_nil_r (a : string) : a +:+ "" = a.
Proof.
  induction a as [|x a IH]; [reflexivity|]. now rewrite append_cons, IH.
Qed.

Lemma prefix_spec (p s : string) :
  String.prefix p s = true <-> exists post, s = p +:+ post.
Proof.
  revert s; induction p as [|c p IH]; intros s.
  - split; [intros _; now exists s | intros _; now destruct s].
  - destruct s as [|d s]; simpl.
    + split; [discriminate | intros [post H]; discriminate].
    + destruct (ascii_dec c d) as [->|Hne].
      * rewrite IH. split; intros [post H]; exists post;
          rewrite ?append_cons in *; congruence.
      * split; [discriminate | intros [post H]; rewrite append_cons in H; congruence].
Qed.

Lemma contains_eq (needle hay : string) :
  PyStr.contains needle hay
  = String.prefix needle hay
    || match hay with
       | String _ t => PyStr.contains needle t
       | EmptyString => false
       end.
Proof. now destruct hay. Qed.

(** [contains] decides the substring relation. *)
Lemma contains_spec (needle hay : string) :
  PyStr.contains needle hay = true
  <-> exists pre post, hay = pre +:+ needle +:+ post.
Proof.
  induction hay as [|c hay IH]; rewrite contains_eq.
  - rewrite orb_false_r, prefix_spec. split.
    + intros [post H]. now exists "", post.
    + intros [pre [post H]]. destruct pre; [now exists post | discriminate].
  - rewrite orb_true_iff, prefix_spec, IH. split.
    + intros [[post H] | [pre [post H]]].
      * now exists "", post.
      * exists (String c pre), post. now rewrite append_cons, H.
    + intros [pre [post H]]. destruct pre as [|d pre].
      * left. now exists post.
      * right. exists pre, post. rewrite append_cons in H. congruence.
Qed.

Example readlines_example :
  PyStr.readlines ("abc" +:+ nl +:+ "123" +:+ nl +:+ "4")
  = ["abc" +:+ nl; "123" +:+ nl; "4"].
Proof. reflexivity. Qed.

Example int_example :
  PyStr.int " -1_000 " = Some (-1000) /\ PyStr.int "1__0" = None
  /\ PyStr.int "abc" = None /\ PyStr.int "007" = Some 7
  /\ PyStr.int "+" = None /\ PyStr.int "- 5" = None.
Proof. repeat split; reflexivity. Qed.

Example lower_example :
  PyStr.contains "method" (PyStr.lower "No such METHOD here") = true
  /\ PyStr.contains "method" (PyStr.lower "Unknown error") = false.
Proof. split; reflexivity. Qed.

(** ** Python slices *)

Lemma py_last_short {A} (n : nat) (l : list A) :
  (length l <= n)%nat -> py_last n l = l.
Proof. intros H. unfold py_last. now replace (length l - n)%nat with O by lia. Qed.

Lemma py_last_length {A} (n : nat) (l : list A) :
  length (py_last n l) = Nat.min n (length l).
Proof. unfold py_last. rewrite length_drop. lia. Qed.

Lemma py_last_suffix {A} (n : nat) (l : list A) : py_last n l `suffix_of` l.
Proof. apply suffix_drop. Qed.

Lemma py_last_snoc {A} (n : nat) (l : list A) (x : A) :
  (0 < n)%nat -> py_last n (py_last n l ++ [x]) = py_last n (l ++ [x]).
Proof.
  intros Hn. destruct (Nat.le_gt_cases (length l) n) as [Hle|Hgt].
  - now rewrite (py_last_short n l).
  - unfold py_last at 1 3. rewrite !length_app, py_last_length. simpl.
    unfold py_last. rewrite !drop_app_le by (rewrite ?length_drop; lia).
    rewrite drop_drop. do 2 f_equal. lia.
Qed.

Lemma py_last_py_last {A} (n m : nat) (l : list A) :
  (n <= m)%nat -> py_last n (py_last m l) = py_last n l.
Proof.
  intros H. unfold py_last at 1. rewrite py_last_length.
  unfold py_last. rewrite drop_drop. f_equal. lia.
Qed.

(** ** Deduplication store: loading *)

Lemma parse_ids_malformed (lines : list string) (line : string) :
  line ∈ lines -> PyStr.strip line <> "" -> PyStr.int (PyStr.strip line) = None ->
  parse_ids lines = None.
Proof.
  intros Hin Hne Hint. induction Hin as [line rest | line other rest Hin IH]; simpl.
  - apply String.eqb_neq in Hne. now rewrite Hne, Hint.
  - rewrite IH by assumption.
    destruct (PyStr.strip other =? "")%string; [reflexivity|].
    now destruct (PyStr.int (PyStr.strip other)).
Qed.

Lemma parse_ids_well_formed (lines : list string) :
  (forall line, line ∈ lines ->
     PyStr.strip line = "" \/ is_Some (PyStr.int (PyStr.strip line))) ->
  exists ids, parse_ids lines = Some ids
    /\ forall n, n ∈ ids <->
         exists line, line ∈ lines /\ PyStr.strip line <> ""
                      /\ PyStr.int (PyStr.strip line) = Some n.
Proof.
  induction lines as [|l rest IH]; intros Hall.
  - exists []. split; [reflexivity|]. intros n. split.
    + intros H. inversion H.
    + intros [line [H _]]. inversion H.
  - destruct IH as [ids [Hids Hmem]].
    { intros line Hl. apply Hall. now right. }
    simpl. destruct (PyStr.strip l =? "")%string eqn:Hblank.
    + exists ids. split; [assumption|]. intros n. rewrite Hmem. split.
      * intros [line [H1 H2]]. exists line. split; [now right | assumption].
      * intros [line [H1 [H2 H3]]]. apply elem_of_cons in H1 as [->|H1].
        -- apply String.eqb_eq in Hblank. contradiction.
        -- now exists line.
    + apply String.eqb_neq in Hblank.
      destruct (Hall l) as [Hb | [k Hk]]; [now left | contradiction |].
      rewrite Hk, Hids. exists (k :: ids). split; [reflexivity|].
      intros n. rewrite elem_of_cons, Hmem. split.
      * intros [-> | [line [H1 H2]]].
        -- exists l. split; [now left | now split].
        -- exists line. split; [now right | assumption].
      * intros [line [H1 [H2 H3]]]. apply elem_of_cons in H1 as [->|H1].
        -- left. congruence.
        -- right. now exists line.
Qed.

(** ** Conversation memory *)

Lemma history_of_update (u : Z) (r m : string) (h : history_store) (u' : Z) :
  history_of (update_history u r m h) u'
  = if decide (u = u')
    then py_last (MAX_HISTORY * 2) (history_of h u ++ [(r, m)])%list
    else history_of h u'.
Proof.
  unfold update_history. set (grown := (history_of h u ++ [(r, m)])%list).
  assert (Hg : history_of (<[u:=grown]> h) u = grown).
  { unfold history_of. now rewrite lookup_insert_eq. }
  rewrite Hg. destruct (MAX_HISTORY * 2 <? length grown)%nat eqn:Hlen.
  - unfold history_of at 1. case_decide as Hu.
    + subst u'. now rewrite lookup_insert_eq.
    + now rewrite !lookup_insert_ne by assumption.
  - apply Nat.ltb_ge in Hlen. unfold history_of at 1. case_decide as Hu.
    + subst u'. rewrite lookup_insert_eq. simpl. now rewrite py_last_short.
    + now rewrite lookup_insert_ne by assumption.
Qed.

Lemma turns_of_snoc (user : Z) (appends : list (Z * turn)) (a : Z * turn) :
  turns_of user (appends ++ [a])
  = (turns_of user appends ++ if decide (a.1 = user) then [a.2] else [])%list.
Proof.
  unfold turns_of. rewrite filter_app, fmap_app. f_equal.
  rewrite filter_cons, filter_nil. now case_decide.
Qed.

Lemma run_appends_history (appends : list (Z * turn)) (user : Z) :
  history_of (run_appends appends ∅) user
  = py_last (MAX_HISTORY * 2) (turns_of user appends).
Proof.
  induction appends as [|a appends IH] using rev_ind.
  - reflexivity.
  - unfold run_appends in *. rewrite foldl_snoc, history_of_update, turns_of_snoc.
    destruct a as [u [r m]]; simpl. case_decide as Hu.
    + subst u. rewrite IH. apply py_last_snoc. unfold MAX_HISTORY. lia.
    + now rewrite app_nil_r.
Qed.

Lemma foldl_add_line (acc : string) (turns : list turn) :
  foldl add_line acc turns = acc +:+ lines_of turns.
Proof.
  revert acc; induction turns as [|t turns IH]; intros acc; simpl.
  - now rewrite append_nil_r.
  - rewrite IH. unfold add_line, turn_line. now rewrite !append_assoc.
Qed.

Lemma render_history_eq (history : list turn) :
  render_history history
  = match history with
    | [] => ""
    | _ :: _ =>
        "Previous conversation:" +:+ nl
        +:+ lines_of (py_last MAX_HISTORY history) +:+ nl
    end.
Proof.
  destruct history as [|t history]; [reflexivity|].
  unfold render_history. now rewrite foldl_add_line, !append_assoc.
Qed.

Example load_example :
  load_processed_ids (Some ("12" +:+ nl +:+ nl +:+ " 34 " +:+ nl)) = {[12; 34]}
  /\ save_processed_id true 42 None = Some ("42" +:+ nl)
  /\ save_processed_id false 42 None = None
  /\ load_processed_ids
       (save_processed_id true (-7) (save_processed_id true 42 None))
     = {[42; -7]}.
Proof. repeat split; now vm_compute. Qed.

(** C2, as the claim states it, fails: for the log text
    ["abc\n123\n"] [load_processed_ids] does not return the set [{123}];
    the conversion of ["abc"] raises inside the one [try] that wraps the
    whole read. *)
Lemma load_skips_malformed_line_fails :
  load_processed_ids (Some ("abc" +:+ nl +:+ "123" +:+ nl)) <> {[123]}.
Proof.
  assert (E : load_processed_ids (Some ("abc" +:+ nl +:+ "123" +:+ nl)) = ∅)
    by now vm_compute.
  rewrite E. intros H. assert (Hin : 123 ∈ (∅ : gset Z)) by (rewrite H; set_solver).
  set_solver.
Qed.

(** C2 (amended): loading never fails and skips blank lines, but one line
    that is neither blank nor an integer empties the result: for the log
    text ["abc\n123\n"] the result is the empty set, as it is for a
    missing file and for any text with such a line; when every line that is
    not blank is an integer, the result is the set of these integers. *)
Theorem load_processed_ids_all_or_nothing :
  load_processed_ids (Some ("abc" +:+ nl +:+ "123" +:+ nl)) = ∅
  /\ load_processed_ids None = ∅
  /\ (forall content line,
        line ∈ PyStr.readlines content ->
        PyStr.strip line <> "" -> PyStr.int (PyStr.strip line) = None ->
        load_processed_ids (Some content) = ∅)
  /\ (forall content,
        (forall line, line ∈ PyStr.readlines content ->
           PyStr.strip line = "" \/ is_Some (PyStr.int (PyStr.strip line))) ->
        forall n, n ∈ load_processed_ids (Some content) <->
          exists line, line ∈ PyStr.readlines content
                       /\ PyStr.strip line <> ""
                       /\ PyStr.int (PyStr.strip line) = Some n).
Proof.
  split; [now vm_compute | split; [reflexivity | split]].
  - intros content line Hin Hne Hint. unfold load_processed_ids.
    now rewrite (parse_ids_malformed _ line).
  - intros content Hall n. unfold load_processed_ids.
    destruct (parse_ids_well_formed _ Hall) as [ids [-> Hmem]].
    now rewrite elem_of_list_to_set.
Qed.

Lemma load_processed_ids_all_or_nothing_witness :
  12 ∈ load_processed_ids (Some ("12" +:+ nl +:+ nl +:+ " 34 " +:+ nl)).
Proof.
  assert (E : PyStr.readlines ("12" +:+ nl +:+ nl +:+ " 34 " +:+ nl)
              = ["12" +:+ nl; nl; " 34 " +:+ nl]) by reflexivity.
  apply (proj2 (proj2 (proj2 load_processed_ids_all_or_nothing))
           ("12" +:+ nl +:+ nl +:+ " 34 " +:+ nl)).
  - intros line Hl. rewrite E in Hl.
    apply elem_of_cons in Hl as [-> | Hl]; [right; now exists 12|].
    apply elem_of_cons in Hl as [-> | Hl]; [now left|].
    apply list_elem_of_singleton in Hl as ->. right. now exists 34.
  - exists ("12" +:+ nl). rewrite E. split; [now left|].
    split; [discriminate | reflexivity].
Defined.

(** C3: after any sequence of appends, starting from the empty memory, every
    user's stored history is the last [2 * MAX_HISTORY] of that user's
    turns (so at most 20, the oldest dropped first); the history block
    rendered from it is empty when there is no history, and otherwise lists
    the last [MAX_HISTORY] of the user's turns, at most 10, oldest
    first. *)
Theorem history_bound (appends : list (Z * turn)) (user : Z) :
  let stored := history_of (run_appends appends ∅) user in
  let shown := py_last MAX_HISTORY (turns_of user appends) in
  stored = py_last (MAX_HISTORY * 2) (turns_of user appends)
  /\ (length stored <= 2 * MAX_HISTORY)%nat
  /\ stored `suffix_of` turns_of user appends
  /\ render_history stored
     = (if decide (stored = []) then ""
        else "Previous conversation:" +:+ nl +:+ lines_of shown +:+ nl)
  /\ (length shown <= MAX_HISTORY)%nat
  /\ shown `suffix_of` stored.
Proof.
  intros stored shown. subst stored shown. rewrite run_appends_history.
  split; [reflexivity|]. split; [rewrite py_last_length; lia|].
  split; [apply py_last_suffix|]. split; [|split].
  - rewrite render_history_eq.
    rewrite <- (py_last_py_last MAX_HISTORY (MAX_HISTORY * 2) (turns_of user appends))
      by (unfold MAX_HISTORY; lia).
    destruct (py_last (MAX_HISTORY * 2) (turns_of user appends)); now case_decide.
  - rewrite py_last_length; lia.
  - rewrite <- (py_last_py_last MAX_HISTORY (MAX_HISTORY * 2) (turns_of user appends))
      by (unfold MAX_HISTORY; lia).
    apply py_last_suffix.
Qed.

(** ** Running the monad *)

(** Unfolds the monadic operations and the statements of the loop body, so
    that a computation applied to an explicit state reduces to its result. *)
Ltac run_m :=
  cbv beta iota zeta delta
    [exec process_message handle_private handle_response handle_error
     ask_backend backend_answer reply_answer build_prompt_with_history
     call_generate call_reply call_time call_get_messages mark_processed
     print sleep emit set_processed_ids set_processed_file
     set_conversation_history set_last_check_time of_outcome get ret bind
     raise try_except fst snd processed_ids processed_file
     conversation_history last_check_time trace write_attempts log_text
     events_since].

Tactic Notation "run_m" "in" hyp(H) :=
  cbv beta iota zeta delta
    [exec process_message handle_private handle_response handle_error
     ask_backend backend_answer reply_answer build_prompt_with_history
     call_generate call_reply call_time call_get_messages mark_processed
     print sleep emit set_processed_ids set_processed_file
     set_conversation_history set_last_check_time of_outcome get ret bind
     raise try_except fst snd processed_ids processed_file
     conversation_history last_check_time trace write_attempts log_text
     events_since] in H.

Lemma file_text_save (written : bool) (id : Z) (f : file) :
  file_text (save_processed_id written id f)
  = file_text f +:+ written_line written id.
Proof.
  destruct written; [reflexivity|]. cbn [save_processed_id written_line].
  now rewrite append_nil_r.
Qed.

Lemma replied_ids_app (a b : list event) :
  replied_ids (a ++ b) = (replied_ids a ++ replied_ids b)%list.
Proof.
  induction a as [|ev a IH]; [reflexivity|].
  destruct ev; simpl; now rewrite ?IH.
Qed.

Lemma prompts_sent_app (a b : list event) :
  prompts_sent (a ++ b) = (prompts_sent a ++ prompts_sent b)%list.
Proof.
  induction a as [|ev a IH]; [reflexivity|].
  destruct ev; simpl; now rewrite ?IH.
Qed.

Lemma sleeps_app (a b : list event) :
  sleeps (a ++ b) = (sleeps a ++ sleeps b)%list.
Proof.
  induction a as [|ev a IH]; [reflexivity|].
  destruct ev; simpl; now rewrite ?IH.
Qed.

Lemma events_since_app (w w' : world) (evs : list event) :
  trace w' = (trace w ++ evs)%list -> events_since w w' = evs.
Proof. intros H. unfold events_since. rewrite H. apply drop_app_length. Qed.

(** ** One message *)

(** Closes the goal [exists evs w', m w = (Returned tt, w') /\ trace w' =
    trace w ++ evs /\ ...] once [m w] is reduced, and leaves the rest. *)
Ltac name_events :=
  first
    [ exists []; eexists; split; [reflexivity|];
      split; [symmetry; apply app_nil_r|]
    | eexists _, _; split; [reflexivity|];
      split; [rewrite <- ?app_assoc; reflexivity|] ].

Lemma add_twice (x : Z) (s : gset Z) : {[x]} ∪ ({[x]} ∪ s) = {[x]} ∪ s.
Proof. now rewrite (assoc_L (∪)), (idemp_L (∪)). Qed.

Ltac summarise :=
  name_events;
  split; [reflexivity|];
  split; [first [now left | now right]|];
  split; [first [reflexivity | apply add_twice] | reflexivity].

(** What one iteration of the [for] loop does, whatever the collaborators
    answer: it does not raise, only adds events, none of them a sleep,
    replies at most once, and marks the id unless the message is skipped. *)
Lemma process_message_summary (e : env) (msg : message) (w : world) :
  exists evs w',
    process_message e msg w = (Returned tt, w')
    /\ trace w' = (trace w ++ evs)%list
    /\ sleeps evs = []
    /\ (replied_ids evs = [] \/ replied_ids evs = [msg_id msg])
    /\ processed_ids w'
       = (if skipped msg (processed_ids w) then processed_ids w
          else {[msg_id msg]} ∪ processed_ids w)
    /\ last_check_time w' = last_check_time w.
Proof.
  destruct w as [ids f hist last tr att]. run_m.
  destruct (skipped msg ids); [summarise|].
  destruct (is_private msg); [|summarise].
  destruct (generate_G2_flash e _ _) as [[d|ty]|ex]; [|summarise..].
  destruct (result d) as [res|].
  - destruct (reply e _ _ _) as [[]|ex]; summarise.
  - destruct (error d) as [[m|s|]|]; [|summarise..].
    destruct (negb _); summarise.
Qed.

Lemma skipped_false (msg : message) (ids : gset Z) :
  out msg = false -> has_text msg = true -> msg_id msg ∉ ids ->
  skipped msg ids = false.
Proof.
  intros Ho Ht Hid. unfold skipped. rewrite Ho, Ht. simpl.
  now apply bool_decide_eq_false_2.
Qed.

Lemma skipped_true (msg : message) (ids : gset Z) :
  out msg = true \/ has_text msg = false \/ msg_id msg ∈ ids ->
  skipped msg ids = true.
Proof.
  unfold skipped. intros [-> | [-> | Hid]].
  - reflexivity.
  - now rewrite orb_true_r.
  - rewrite (bool_decide_eq_true_2 _ Hid). now rewrite orb_true_r.
Qed.

(** A skipped message leaves the whole state as it is. *)
Lemma process_message_skipped (e : env) (msg : message) (w : world) :
  skipped msg (processed_ids w) = true ->
  process_message e msg w = (Returned tt, w).
Proof. intros H. destruct w as [ids f hist last tr att]. run_m. run_m in H. now rewrite H. Qed.

Lemma in_add (x : Z) (s : gset Z) : x ∈ {[x]} ∪ s.
Proof. apply elem_of_union_l. now apply elem_of_singleton. Qed.

(** ** What one iteration changes *)

Lemma skipped_mono (msg : message) (ids ids' : gset Z) :
  ids ⊆ ids' -> skipped msg ids = true -> skipped msg ids' = true.
Proof.
  unfold skipped. intros Hsub H.
  apply orb_true_iff in H as [H | H]; [now rewrite H|].
  apply bool_decide_eq_true_1 in H.
  rewrite (bool_decide_eq_true_2 _ (Hsub _ H)). apply orb_true_r.
Qed.

Lemma skipped_false_fresh (msg : message) (ids : gset Z) :
  skipped msg ids = false -> msg_id msg ∉ ids.
Proof.
  unfold skipped. intros H. apply orb_false_iff in H as [_ H].
  now apply bool_decide_eq_false_1 in H.
Qed.

(** The state after one iteration: a skipped message changes nothing; any
    other one puts its id in the set, makes one or two write attempts on
    the log, and, when it is private, adds a "User" turn to the sender's
    history. *)
Lemma process_message_effect (e : env) (msg : message) (w : world) :
  let w' := exec (process_message e msg) w in
  let a := write_attempts w in
  last_check_time w' = last_check_time w
  /\ conversation_history w'
     = (if skipped msg (processed_ids w) then conversation_history w
        else if is_private msg
             then touch (sender_id msg)
                    (update_history (sender_id msg) "User" (msg_text msg)
                       (conversation_history w))
             else conversation_history w)
  /\ processed_ids w'
     = (if skipped msg (processed_ids w) then processed_ids w
        else {[msg_id msg]} ∪ processed_ids w)
  /\ processed_file w'
     = (if skipped msg (processed_ids w) then processed_file w
        else if records_in_branch e msg w
             then save_processed_id (write_succeeds e (S a)) (msg_id msg)
                    (save_processed_id (write_succeeds e a) (msg_id msg)
                       (processed_file w))
             else save_processed_id (write_succeeds e a) (msg_id msg)
                    (processed_file w))
  /\ write_attempts w'
     = (if skipped msg (processed_ids w) then a
        else if records_in_branch e msg w then S (S a) else S a).
Proof.
  destruct w as [ids f hist last tr att]. unfold records_in_branch. run_m.
  destruct (skipped msg ids); [repeat split|].
  destruct (is_private msg); [|repeat split].
  destruct (generate_G2_flash e _ _) as [[d|ty]|ex]; [|repeat split..].
  cbv beta iota. destruct (result d) as [res|].
  - destruct (reply e _ _ _) as [[]|ex]; repeat split. apply add_twice.
  - destruct (error d) as [[m|s|]|]; [|repeat split..].
    destruct (negb _); repeat split. apply add_twice.
Qed.

(** The log after one iteration of a message that passes the filter. *)
Lemma process_message_log (e : env) (msg : message) (w : world) :
  skipped msg (processed_ids w) = false ->
  let w' := exec (process_message e msg) w in
  let a := write_attempts w in
  let id := msg_id msg in
  if records_in_branch e msg w
  then write_attempts w' = S (S a)
       /\ log_text w'
          = log_text w +:+ written_line (write_succeeds e a) id
            +:+ written_line (write_succeeds e (S a)) id
  else write_attempts w' = S a
       /\ log_text w' = log_text w +:+ written_line (write_succeeds e a) id.
Proof.
  intros Hs w' a id. subst w' a id.
  destruct (process_message_effect e msg w) as [_ [_ [_ [Hfile Hatt]]]].
  unfold log_text. rewrite Hfile, Hatt, Hs.
  destruct (records_in_branch e msg w);
    (split; [reflexivity|]); now rewrite !file_text_save, ?append_assoc.
Qed.




(** C10, as the claim states it, fails: a successful result is not enough
    for the second write.  When the backend returns a result and
    [msg.reply] raises, the handler of line 194 skips lines 179-182 and the
    id is written once, although the log takes every write. *)
Lemma result_logged_twice_fails :
  let w := initial_world None in
  let w' := exec (process_message Samples.env_hi_reply_fails Samples.hello) w in
  is_private Samples.hello = true
  /\ skipped Samples.hello (processed_ids w) = false
  /\ backend_answer Samples.env_hi_reply_fails Samples.hello w
     = Returned (Samples.result_dict (ResultContent "Hi"))
  /\ store_reliable Samples.env_hi_reply_fails
  /\ log_text w' = "42" +:+ nl
  /\ log_text w'
     <> log_text w +:+ (pretty (msg_id Samples.hello) +:+ nl)
        +:+ (pretty (msg_id Samples.hello) +:+ nl).
Proof.
  intros w w'. split; [reflexivity|]. split; [reflexivity|].
  split; [reflexivity|]. split; [intros n; reflexivity|].
  split; [now vm_compute|]. vm_compute. discriminate.
Qed.

(** C10 (amended): for a private message that passes the skip filter, when
    the backend returns a result and the reply is sent without an
    exception, or when it returns an error whose message (or the default
    "Unknown error") does not contain "method", two writes of the id to the
    log are attempted in that one pass, one in the branch of the response
    and the trailing one; each attempt that goes through appends the id,
    a failed one is swallowed and appends nothing, so when both go through
    the id is appended twice. *)
Theorem answered_message_logged_twice (e : env) (msg : message) (w : world) :
  out msg = false -> has_text msg = true -> msg_id msg ∉ processed_ids w ->
  is_private msg = true ->
  (exists d,
     backend_answer e msg w = Returned (RDict d)
     /\ ((exists res,
            result d = Some res
            /\ reply_answer e msg (reply_text_of res) w = Returned tt)
         \/ (exists message,
               result d = None /\ error d = Some (ErrorDict message)
               /\ PyStr.contains "method"
                    (PyStr.lower (default "Unknown error" message)) = false))) ->
  let w' := exec (process_message e msg) w in
  let a := write_attempts w in
  write_attempts w' = S (S a)
  /\ log_text w'
     = log_text w +:+ written_line (write_succeeds e a) (msg_id msg)
       +:+ written_line (write_succeeds e (S a)) (msg_id msg)
  /\ (write_succeeds e a = true -> write_succeeds e (S a) = true ->
      log_text w'
      = log_text w +:+ (pretty (msg_id msg) +:+ nl)
        +:+ (pretty (msg_id msg) +:+ nl)).
Proof.
  intros Ho Ht Hid Hp [d [Hd Hcase]] w' a. subst w' a.
  pose proof (skipped_false msg _ Ho Ht Hid) as Hs.
  pose proof (process_message_log e msg w Hs) as Hlog. cbv zeta in Hlog.
  assert (Hr : records_in_branch e msg w = true).
  { unfold records_in_branch. rewrite Hp, Hd. cbn [andb].
    destruct Hcase as [[res [Hres Hrep]] | [message [Hres [Herr Hm]]]].
    - now rewrite Hres, Hrep.
    - now rewrite Hres, Herr, Hm. }
  rewrite Hr in Hlog. destruct Hlog as [Hatt Hlog].
  split; [assumption|]. split; [assumption|].
  intros H1 H2. now rewrite Hlog, H1, H2.
Qed.

Lemma answered_message_logged_twice_witness :
  log_text (exec (process_message Samples.env_hi Samples.hello) (initial_world None))
  = log_text (initial_world None)
    +:+ (pretty (msg_id Samples.hello) +:+ nl)
    +:+ (pretty (msg_id Samples.hello) +:+ nl).
Proof.
  refine (proj2 (proj2 (answered_message_logged_twice Samples.env_hi
                          Samples.hello (initial_world None) _ _ _ _ _)) _ _);
    try reflexivity.
  - apply not_elem_of_empty.
  - exists (ResponseDict (Some (ResultContent "Hi")) None).
    split; [reflexivity|]. left. exists (ResultContent "Hi").
    split; reflexivity.
Defined.

(** The defect behind C1, in general: an error whose message contains
    "method" skips the write of lines 189-190, and lines 197-198 then mark
    the id all the same, with one write attempt. *)
Lemma method_error_marked_once (e : env) (msg : message) (w : world)
    (message : string) :
  out msg = false -> has_text msg = true -> msg_id msg ∉ processed_ids w ->
  is_private msg = true ->
  backend_answer e msg w
  = Returned (RDict (ResponseDict None (Some (ErrorDict (Some message))))) ->
  PyStr.contains "method" (PyStr.lower message) = true ->
  let w' := exec (process_message e msg) w in
  msg_id msg ∈ processed_ids w'
  /\ log_text w'
     = log_text w
       +:+ written_line (write_succeeds e (write_attempts w)) (msg_id msg)
  /\ process_message e msg w' = (Returned tt, w').
Proof.
  intros Ho Ht Hid Hp Hd Hm w'. subst w'.
  pose proof (skipped_false msg _ Ho Ht Hid) as Hs.
  pose proof (process_message_log e msg w Hs) as Hlog. cbv zeta in Hlog.
  destruct (process_message_effect e msg w) as [_ [_ [Hids _]]].
  rewrite Hs in Hids.
  assert (Hr : records_in_branch e msg w = false).
  { unfold records_in_branch. rewrite Hp, Hd. cbn [andb result error default from_option id].
    now rewrite Hm. }
  rewrite Hr in Hlog. split; [rewrite Hids; apply in_add|].
  split; [apply Hlog|].
  apply process_message_skipped, skipped_true. right; right.
  rewrite Hids. apply in_add.
Qed.

(** C1 on the scenario of the specification: the backend answers
    [{"error": {"message": "no such method"}}] to the private message 42.
    After the pass the id 42 is in the set and in the log, and a later poll
    that fetches the message again skips it: nothing is retried. *)
Theorem method_error_is_marked_anyway :
  let w := initial_world None in
  let w' := exec (process_message Samples.env_method_error Samples.hello) w in
  backend_answer Samples.env_method_error Samples.hello w
  = Returned (Samples.error_dict (ErrorDict (Some "no such method")))
  /\ processed_ids w' = {[42]}
  /\ log_text w' = "42" +:+ nl
  /\ process_message Samples.env_method_error Samples.hello w' = (Returned tt, w').
Proof.
  intros w w'. split; [reflexivity|]. split; [now vm_compute|].
  split; [now vm_compute|].
  apply process_message_skipped, skipped_true. right; right.
  apply (method_error_marked_once Samples.env_method_error Samples.hello w
           "no such method"); try reflexivity.
  apply not_elem_of_empty.
Qed.

(** The prompts one iteration sends: none for a skipped or a non-private
    message, otherwise the one built from the history to which the message
    was just added. *)
Lemma process_message_prompts (e : env) (msg : message) (w : world) :
  prompts_sent (events_since w (exec (process_message e msg) w))
  = if skipped msg (processed_ids w) then []
    else if is_private msg
         then [(build_prompt_with_history (KNOWLEDGE e) (sender_id msg)
                  (msg_text msg)
                  (update_history (sender_id msg) "User" (msg_text msg)
                     (conversation_history w))).1]
         else [].
Proof.
  destruct w as [ids f hist last tr att]. run_m.
  destruct (skipped msg ids); [now rewrite drop_all|].
  destruct (is_private msg); [|now rewrite drop_all].
  destruct (generate_G2_flash e _ _) as [[d|ty]|ex].
  - destruct (result d) as [res|].
    + destruct (reply e _ _ _) as [[]|ex];
        now rewrite <- !app_assoc, drop_app_length.
    + destruct (error d) as [[m|s|]|];
        [destruct (negb _)|..]; now rewrite <- !app_assoc, drop_app_length.
  - now rewrite <- !app_assoc, drop_app_length.
  - now rewrite <- !app_assoc, drop_app_length.
Qed.

Lemma history_of_touch (u : Z) (h : history_store) (u' : Z) :
  history_of (touch u h) u' = history_of h u'.
Proof.
  unfold touch. unfold history_of at 1.
  destruct (decide (u = u')) as [->|Hne].
  - now rewrite lookup_insert_eq.
  - now rewrite lookup_insert_ne.
Qed.

Lemma touch_present (u : Z) (h : history_store) :
  is_Some (h !! u) -> touch u h = h.
Proof.
  intros [l Hl]. unfold touch, history_of. rewrite Hl. now apply insert_id.
Qed.

Lemma prompt_contains_message (k history_text m : string) :
  PyStr.contains ("Current message: " +:+ m) (prompt_template k history_text m)
  = true.
Proof.
  apply contains_spec.
  exists (k +:+ nl +:+ nl +:+ "    " +:+ history_text), instruction_suffix.
  unfold prompt_template. now rewrite !append_assoc.
Qed.

(** C6: the prompt is the knowledge text, then the history block, then
    ["Current message: "] and the new message, then the fixed suffix, in
    this order; it is determined by the knowledge text, the user's history
    and the new message.  The block is empty for an empty history and
    otherwise starts with the label ["Previous conversation:"].  Building
    the prompt changes no user's history (it leaves the store as it is when
    the user has an entry).  A private, incoming, unseen message with the
    text "Hello" makes one backend call, whose prompt contains
    ["Current message: Hello"]. *)
Theorem prompt_builder_shape :
  (forall (k : string) (u : Z) (m : string) (h : history_store),
     let built := build_prompt_with_history k u m h in
     let block := render_history (history_of h u) in
     built.1
     = k +:+ nl +:+ nl +:+ "    " +:+ block +:+ "Current message: " +:+ m
       +:+ nl +:+ nl
       +:+ "    Please respond appropriately based on the context and previous conversation."
     /\ (history_of h u = [] -> block = "")
     /\ (history_of h u <> [] ->
           exists body, block = "Previous conversation:" +:+ nl +:+ body +:+ nl)
     /\ (forall u', history_of built.2 u' = history_of h u')
     /\ (is_Some (h !! u) -> built.2 = h))
  /\ (forall (e : env) (msg : message) (w : world),
        text msg = Some "Hello" -> out msg = false -> is_private msg = true ->
        msg_id msg ∉ processed_ids w ->
        exists p,
          prompts_sent (events_since w (exec (process_message e msg) w)) = [p]
          /\ PyStr.contains "Current message: Hello" p = true).
Proof.
  split.
  - intros k u m h built block. subst built block.
    unfold build_prompt_with_history. cbn [fst snd].
    rewrite history_of_touch.
    split; [reflexivity|]. split; [now intros ->|]. split; [|split].
    + intros Hne. rewrite render_history_eq.
      destruct (history_of h u); [contradiction | eauto].
    + apply history_of_touch.
    + apply touch_present.
  - intros e msg w Htext Ho Hp Hid.
    assert (Ht : has_text msg = true) by (unfold has_text; now rewrite Htext).
    rewrite process_message_prompts, (skipped_false msg _ Ho Ht Hid), Hp.
    eexists. split; [reflexivity|].
    unfold build_prompt_with_history, msg_text. rewrite Htext. cbn [fst default from_option id].
    apply (prompt_contains_message _ _ "Hello").
Qed.

Lemma prompt_builder_shape_witness :
  exists p,
    prompts_sent
      (events_since (initial_world None)
         (exec (process_message Samples.env_hi Samples.hello) (initial_world None)))
    = [p]
    /\ PyStr.contains "Current message: Hello" p = true.
Proof.
  apply (proj2 prompt_builder_shape Samples.env_hi Samples.hello
           (initial_world None)); try reflexivity.
  apply not_elem_of_empty.
Defined.

(** The start of the polling part does not raise, whatever the first fetch
    does, and leaves in [processed_ids] what the log file holds. *)
Lemma start_polling_loads (e : env) (w : world) :
  (start_polling e w).1 = Returned tt
  /\ processed_ids (exec (start_polling e) w)
     = load_processed_ids (processed_file w)
  /\ processed_file (exec (start_polling e) w) = processed_file w.
Proof.
  destruct w as [ids f hist last tr att]. unfold start_polling. run_m.
  destruct (get_messages e _ _) as [[|m rest]|ex]; repeat split.
Qed.

(** ** One batch *)

(** With a backend that returns a result, an incoming private message with
    text and a fresh id is replied to (the call is made, whether or not it
    then raises) and marked. *)
Lemma process_message_replies (e : env) (msg : message) (w : world) :
  always_result e ->
  out msg = false -> has_text msg = true -> is_private msg = true ->
  msg_id msg ∉ processed_ids w ->
  exists evs w',
    process_message e msg w = (Returned tt, w')
    /\ trace w' = (trace w ++ evs)%list
    /\ replied_ids evs = [msg_id msg]
    /\ processed_ids w' = {[msg_id msg]} ∪ processed_ids w.
Proof.
  intros Hres Ho Ht Hp Hid.
  pose proof (skipped_false msg _ Ho Ht Hid) as Hs.
  destruct w as [ids f hist last tr att]. run_m. run_m in Hs. rewrite Hs, Hp.
  match goal with
  | |- context [generate_G2_flash e ?n ?rpc] =>
      destruct (Hres n rpc) as [d [res [-> Hd]]]
  end.
  cbv beta iota. rewrite Hd.
  destruct (reply e _ _ _) as [[]|ex]; name_events;
    (split; [reflexivity | first [reflexivity | apply add_twice]]).
Qed.

Lemma for_each_cons {A} (x : A) (rest : list A) (body : A -> M unit) (w w1 : world) :
  body x w = (Returned tt, w1) ->
  for_each (x :: rest) body w = for_each rest body w1.
Proof. intros H. cbn [for_each]. unfold bind. now rewrite H. Qed.

(** What the [for] loop does over the messages [l], taken in the order of
    [l]: it does not raise, sleeps never, replies in the order of [l], and
    only adds ids of [l] to the set. *)
Lemma for_each_summary (e : env) (l : list message) (w : world) :
  exists evs w',
    for_each l (process_message e) w = (Returned tt, w')
    /\ trace w' = (trace w ++ evs)%list
    /\ sleeps evs = []
    /\ replied_ids evs `sublist_of` (msg_id <$> l)
    /\ last_check_time w' = last_check_time w.
Proof.
  revert w; induction l as [|m l IH]; intros w.
  - exists [], w. repeat split; [now rewrite app_nil_r | constructor].
  - destruct (process_message_summary e m w)
      as [evs1 [w1 [Hrun [Htr [Hsl [Hrep [_ Hlast]]]]]]].
    destruct (IH w1) as [evs2 [w2 [Hrun2 [Htr2 [Hsl2 [Hrep2 Hlast2]]]]]].
    exists (evs1 ++ evs2)%list, w2.
    split; [now rewrite (for_each_cons _ _ _ _ _ Hrun)|].
    split; [now rewrite Htr2, Htr, app_assoc|].
    split; [now rewrite sleeps_app, Hsl, Hsl2|].
    split; [|congruence].
    rewrite replied_ids_app, fmap_cons.
    destruct Hrep as [-> | ->]; [now apply sublist_cons | now apply sublist_skip].
Qed.

Lemma for_each_all_replied (e : env) (l : list message) (w : world) :
  always_result e ->
  NoDup (msg_id <$> l) ->
  (forall m, m ∈ l ->
     out m = false /\ has_text m = true /\ is_private m = true
     /\ msg_id m ∉ processed_ids w) ->
  exists evs w',
    for_each l (process_message e) w = (Returned tt, w')
    /\ trace w' = (trace w ++ evs)%list
    /\ replied_ids evs = msg_id <$> l.
Proof.
  intros Hres. revert w; induction l as [|m l IH]; intros w Hnd Hall.
  - exists [], w. repeat split. now rewrite app_nil_r.
  - rewrite fmap_cons in Hnd. apply NoDup_cons in Hnd as [Hm Hnd].
    destruct (Hall m) as [Ho [Ht [Hp Hid]]]; [now left|].
    destruct (process_message_replies e m w Hres Ho Ht Hp Hid)
      as [evs1 [w1 [Hrun [Htr [Hrep Hids]]]]].
    destruct (IH w1 Hnd) as [evs2 [w2 [Hrun2 [Htr2 Hrep2]]]].
    { intros m' Hm'. destruct (Hall m') as [Ho' [Ht' [Hp' Hid']]]; [now right|].
      repeat split; try assumption. rewrite Hids.
      intros [Heq%elem_of_singleton | Hin]%elem_of_union; [|contradiction].
      apply Hm. rewrite <- Heq. now apply list_elem_of_fmap_2. }
    exists (evs1 ++ evs2)%list, w2.
    split; [now rewrite (for_each_cons _ _ _ _ _ Hrun)|].
    split; [now rewrite Htr2, Htr, app_assoc|].
    now rewrite replied_ids_app, Hrep, Hrep2.
Qed.

Lemma for_each_all_skipped (e : env) (l : list message) (w : world) :
  (forall m, m ∈ l -> msg_id m ∈ processed_ids w) ->
  for_each l (process_message e) w = (Returned tt, w).
Proof.
  induction l as [|m l IH]; intros Hall; [reflexivity|].
  rewrite (for_each_cons _ _ _ _ w).
  - apply IH. intros m' Hm'. apply Hall. now right.
  - apply process_message_skipped, skipped_true. right; right.
    apply Hall. now left.
Qed.

Lemma for_each_app {A} (l1 l2 : list A) (body : A -> M unit) (w : world) :
  for_each (l1 ++ l2) body w
  = match for_each l1 body w with
    | (Returned _, w1) => for_each l2 body w1
    | (Raised ex, w1) => (Raised ex, w1)
    end.
Proof.
  revert w; induction l1 as [|x l1 IH]; intros w; [reflexivity|].
  cbn [app for_each]. unfold bind.
  destruct (body x w) as [[[]|ex] w1]; [apply IH | reflexivity].
Qed.

(** The newest message of a batch, fetched first, is processed last. *)
Lemma process_batch_cons (e : env) (m : message) (messages : list message)
    (w : world) :
  exec (process_batch e (m :: messages)) w
  = exec (process_message e m) (exec (process_batch e messages) w).
Proof.
  unfold exec, process_batch. rewrite reverse_cons, for_each_app.
  destruct (for_each_summary e (reverse messages) w) as [evs [w1 [-> _]]].
  cbn [for_each snd]. unfold bind.
  destruct (process_message_summary e m w1) as [evs' [w2 [-> _]]].
  reflexivity.
Qed.

(** C4: a fetched message that is outgoing, or has no text, or is not from
    a private chat, or whose id is already in the set, causes no event at
    all while it is processed, so neither a backend call nor a reply; and a
    batch whose ids are all in the set leaves the whole state unchanged: no
    reply and nothing written to the log. *)
Theorem filtered_message_is_silent :
  (forall (e : env) (msg : message) (w : world),
     out msg = true \/ has_text msg = false \/ is_private msg = false
     \/ msg_id msg ∈ processed_ids w ->
     let evs := events_since w (exec (process_message e msg) w) in
     evs = [] /\ prompts_sent evs = [] /\ replied_ids evs = [])
  /\ (forall (e : env) (messages : list message) (w : world),
        (forall m, m ∈ messages -> msg_id m ∈ processed_ids w) ->
        let w' := exec (process_batch e messages) w in
        w' = w
        /\ replied_ids (events_since w w') = []
        /\ log_text w' = log_text w).
Proof.
  split.
  - intros e msg w H evs.
    assert (Hevs : evs = []); [|now rewrite Hevs].
    subst evs. destruct (skipped msg (processed_ids w)) eqn:Hs.
    + unfold exec. rewrite process_message_skipped by assumption.
      apply drop_all.
    + assert (Hp : is_private msg = false).
      { destruct H as [H | [H | [H | H]]]; [| |assumption|];
          rewrite skipped_true in Hs; try discriminate; tauto. }
      destruct w as [ids f hist last tr att]. run_m. run_m in Hs.
      rewrite Hs, Hp. apply drop_all.
  - intros e messages w Hall w'.
    assert (Hw : w' = w).
    { subst w'. unfold exec, process_batch. rewrite for_each_all_skipped; [reflexivity|].
      intros m Hm. apply Hall. now apply elem_of_reverse. }
    rewrite Hw. repeat split. unfold events_since. now rewrite drop_all.
Qed.

Lemma filtered_message_is_silent_witness :
  events_since (initial_world None)
    (exec (process_message Samples.env_hi Samples.hello_group) (initial_world None))
  = []
  /\ exec (process_batch Samples.env_hi [Samples.hello])
       (World {[42]} None ∅ (0 # 1) [] 0)
     = World {[42]} None ∅ (0 # 1) [] 0.
Proof.
  split.
  - apply (proj1 filtered_message_is_silent Samples.env_hi Samples.hello_group
             (initial_world None)).
    right; right; left. reflexivity.
  - apply (proj2 filtered_message_is_silent Samples.env_hi [Samples.hello]
             (World {[42]} None ∅ (0 # 1) [] 0)).
    intros m Hm. apply list_elem_of_singleton in Hm as ->.
    change (42 ∈ ({[42]} : gset Z)). now apply elem_of_singleton.
Defined.

(** C7: for a batch fetched newest first, the messages are processed and
    the replies issued in the reverse of the fetch order, that is oldest
    first: a message put in front of a batch is processed after the whole
    batch; the ids replied to form a subsequence of the reversed batch; and when every message of the
    batch is incoming, private, with text and a fresh id of its own, and
    the backend always returns a result, they are exactly the reversed
    batch. *)
Theorem replies_in_reverse_fetch_order (e : env) (messages : list message)
    (w : world) :
  let evs := events_since w (exec (process_batch e messages) w) in
  (forall m, exec (process_batch e (m :: messages)) w
             = exec (process_message e m) (exec (process_batch e messages) w))
  /\ replied_ids evs `sublist_of` reverse (msg_id <$> messages)
  /\ (always_result e ->
      NoDup (msg_id <$> messages) ->
      (forall m, m ∈ messages ->
         out m = false /\ has_text m = true /\ is_private m = true
         /\ msg_id m ∉ processed_ids w) ->
      replied_ids evs = reverse (msg_id <$> messages)).
Proof.
  intros evs. subst evs. split; [intros m; apply process_batch_cons|].
  unfold exec, process_batch. rewrite <- fmap_reverse. split.
  - destruct (for_each_summary e (reverse messages) w)
      as [evs [w' [-> [Htr [_ [Hsub _]]]]]].
    cbn [snd]. now rewrite (events_since_app _ _ _ Htr).
  - intros Hres Hnd Hall.
    destruct (for_each_all_replied e (reverse messages) w Hres)
      as [evs [w' [-> [Htr Hrep]]]].
    + now rewrite fmap_reverse, reverse_Permutation.
    + intros m Hm. apply Hall. now apply elem_of_reverse.
    + cbn [snd]. now rewrite (events_since_app _ _ _ Htr).
Qed.

Lemma replies_in_reverse_fetch_order_witness :
  replied_ids
    (events_since (initial_world None)
       (exec (process_batch Samples.env_hi
                [Message 2 7 (Some "newer") false true;
                 Message 1 7 (Some "older") false true])
          (initial_world None)))
  = [1; 2].
Proof.
  apply (proj2 (proj2 (replies_in_reverse_fetch_order Samples.env_hi
                  [Message 2 7 (Some "newer") false true;
                   Message 1 7 (Some "older") false true]
                  (initial_world None)))).
  - intros n rpc. eexists _, _. split; reflexivity.
  - apply NoDup_cons. split; [|apply NoDup_singleton].
    intros H%list_elem_of_singleton. discriminate.
  - intros m Hm. repeat split;
      try (apply elem_of_cons in Hm as [-> | ->%list_elem_of_singleton];
           reflexivity).
    apply not_elem_of_empty.
Defined.

(** ** Periodic cleanup *)

Lemma Qlt_bool_spec (a b : Q) : Qlt_bool a b = true <-> (a < b)%Q.
Proof.
  unfold Qlt_bool. rewrite negb_true_iff, <- not_true_iff_false, Qle_bool_iff.
  split; [apply Qnot_le_lt | apply Qlt_not_le].
Qed.

Section Compaction.

Variable e : env.
Hypothesis order_ok : env_ok e.

Lemma kept_subset (ids : gset Z) :
  (list_to_set (py_last 1000 (set_order e ids)) : gset Z) ⊆ ids.
Proof.
  intros x Hx. apply elem_of_list_to_set in Hx.
  apply elem_of_elements. rewrite <- (order_ok ids).
  eapply elem_of_sublist; [exact Hx | apply sublist_drop].
Qed.

Lemma kept_size (ids : gset Z) :
  size (list_to_set (py_last 1000 (set_order e ids)) : gset Z)
  = Nat.min 1000 (size ids).
Proof.
  rewrite size_list_to_set.
  - rewrite py_last_length. f_equal.
    unfold size, set_size. cbn. now rewrite (order_ok ids).
  - eapply sublist_NoDup; [|apply sublist_drop].
    rewrite (order_ok ids). apply NoDup_elements.
Qed.

End Compaction.

(** The cleanup does not raise, never sleeps, and only reads the clock and
    prints. *)
Lemma periodic_cleanup_summary (e : env) (w : world) :
  exists evs w',
    periodic_cleanup e w = (Returned tt, w')
    /\ trace w' = (trace w ++ evs)%list
    /\ sleeps evs = [].
Proof.
  destruct w as [ids f hist last tr att]. unfold periodic_cleanup. run_m.
  destruct (Qlt_bool _ _); [|name_events; reflexivity].
  destruct (1000 <? size ids)%nat; name_events; reflexivity.
Qed.



(** ** The loop *)

Lemma fetches_app (a b : list event) :
  fetches (a ++ b) = (fetches a ++ fetches b)%list.
Proof.
  induction a as [|ev a IH]; [reflexivity|].
  destruct ev; simpl; now rewrite ?IH.
Qed.

(** Only the loop itself fetches: one iteration of the [for] loop and the
    cleanup do not. *)
Lemma process_message_no_fetch (e : env) (msg : message) (w : world) :
  fetches (events_since w (exec (process_message e msg) w)) = [].
Proof.
  destruct w as [ids f hist last tr att]. run_m.
  destruct (skipped msg ids); [now rewrite drop_all|].
  destruct (is_private msg); [|now rewrite drop_all].
  destruct (generate_G2_flash e _ _) as [[d|ty]|ex];
    [|now rewrite <- !app_assoc, drop_app_length..].
  cbv beta iota. destruct (result d) as [res|].
  - destruct (reply e _ _ _) as [[]|ex];
      now rewrite <- !app_assoc, drop_app_length.
  - destruct (error d) as [[m|s|]|];
      [destruct (negb _)|..]; now rewrite <- !app_assoc, drop_app_length.
Qed.

Lemma for_each_no_fetch (e : env) (l : list message) (w : world) (evs : list event) :
  trace (exec (for_each l (process_message e)) w) = (trace w ++ evs)%list ->
  fetches evs = [].
Proof.
  revert w evs; induction l as [|m l IH]; intros w evs Htr.
  - cbn in Htr. rewrite <- (app_nil_r (trace w)) in Htr at 1.
    apply app_inv_head in Htr. now subst evs.
  - destruct (process_message_summary e m w) as [evs1 [w1 [Hrun [Htr1 _]]]].
    pose proof (process_message_no_fetch e m w) as Hf1.
    unfold exec in Hf1, Htr. rewrite Hrun in Hf1. cbn [snd] in Hf1.
    rewrite (events_since_app _ _ _ Htr1) in Hf1.
    rewrite (for_each_cons _ _ _ _ _ Hrun) in Htr.
    destruct (for_each_summary e l w1) as [evs2 [w2 [Hrun2 [Htr2 _]]]].
    assert (H2 : fetches evs2 = []).
    { apply (IH w1). unfold exec. now rewrite Hrun2. }
    rewrite Hrun2 in Htr. cbn [snd] in Htr.
    rewrite Htr2, Htr1, <- app_assoc in Htr. apply app_inv_head in Htr.
    subst evs. now rewrite fetches_app, Hf1, H2.
Qed.

Lemma periodic_cleanup_no_fetch (e : env) (w : world) (evs : list event) :
  trace (exec (periodic_cleanup e) w) = (trace w ++ evs)%list ->
  fetches evs = [].
Proof.
  destruct w as [ids f hist last tr att]. unfold periodic_cleanup. run_m.
  destruct (Qlt_bool _ _); [destruct (1000 <? size ids)%nat|];
    rewrite <- ?app_assoc; intros H; apply app_inv_head in H; now subst evs.
Qed.

(** A poll cycle starts with its one fetch; then it either returns after
    its one sleep of 2 seconds, or raises what the fetch raised, before any
    sleep. *)
Lemma poll_cycle_summary (e : env) (w : world) :
  exists evs w',
    trace w' = (trace w ++ EGetMessages 20 :: evs)%list
    /\ fetches evs = []
    /\ ((poll_cycle e w = (Returned tt, w') /\ sleeps evs = [2])
        \/ (exists ex, poll_cycle e w = (Raised ex, w') /\ sleeps evs = [])).
Proof.
  destruct w as [ids f hist last tr att]. unfold poll_cycle. run_m.
  destruct (get_messages e _ _) as [messages|ex].
  - unfold process_batch.
    match goal with
    | |- context [for_each ?l ?body ?w0] =>
        destruct (for_each_summary e l w0) as [evs1 [w1 [Hrun1 [Htr1 [Hs1 _]]]]];
        pose proof (for_each_no_fetch e l w0 evs1) as Hf1
    end.
    unfold exec in Hf1. rewrite Hrun1 in Hf1. specialize (Hf1 Htr1).
    rewrite Hrun1.
    destruct w1 as [ids1 f1 hist1 last1 tr1 att1]. cbn [trace] in Htr1. cbv beta iota.
    match goal with
    | |- context [periodic_cleanup e ?w0] =>
        destruct (periodic_cleanup_summary e w0) as [evs2 [w2 [Hrun2 [Htr2 Hs2]]]];
        pose proof (periodic_cleanup_no_fetch e w0 evs2) as Hf2
    end.
    unfold exec in Hf2. rewrite Hrun2 in Hf2. specialize (Hf2 Htr2).
    rewrite Hrun2.
    destruct w2 as [ids2 f2 hist2 last2 tr2 att2]. cbn [trace] in Htr2.
    exists (evs1 ++ [ESleep 2] ++ evs2)%list,
      (World ids2 f2 hist2 last2 tr2 att2). split.
    + cbv beta iota. rewrite Htr2, Htr1. now rewrite <- !app_assoc.
    + split; [rewrite !fetches_app, Hf1, Hf2; reflexivity|].
      left. split; [reflexivity|].
      rewrite !sleeps_app, Hs1, Hs2. reflexivity.
  - exists [], (World ids f hist last (tr ++ [EGetMessages 20]) att).
    split; [reflexivity|]. split; [reflexivity|].
    right. exists ex. split; reflexivity.
Qed.

(** One guarded turn of the loop returns, having fetched once, at its
    start, and slept once. *)
Lemma guarded_cycle_summary (e : env) (w : world) :
  exists evs w',
    guarded_cycle e w = (Returned tt, w')
    /\ trace w' = (trace w ++ EGetMessages 20 :: evs)%list
    /\ length (sleeps evs) = 1%nat
    /\ fetches evs = [].
Proof.
  destruct (poll_cycle_summary e w)
    as [evs [w1 [Htr [Hf [[Hrun Hs] | [ex [Hrun Hs]]]]]]];
    unfold guarded_cycle, try_except; rewrite Hrun.
  - exists evs, w1. split; [reflexivity|]. split; [assumption|].
    split; [now rewrite Hs | assumption].
  - destruct w1 as [ids1 f1 hist1 last1 tr1 att1]. cbn [trace] in Htr. run_m.
    eexists (evs ++ [EPrint (PLoopError ex); ESleep 5])%list, _.
    split; [reflexivity|]. split; [|split].
    + cbn [trace]. rewrite Htr. rewrite <- !app_assoc. reflexivity.
    + now rewrite sleeps_app, Hs.
    + now rewrite fetches_app, Hf.
Qed.

Lemma main_loop_summary (e : env) (fuel : nat) (w : world) :
  exists evs w',
    main_loop e fuel w = (Returned tt, w')
    /\ trace w' = (trace w ++ evs)%list
    /\ length (sleeps evs) = fuel
    /\ fetches evs = repeat 20%nat fuel.
Proof.
  revert w; induction fuel as [|fuel IH]; intros w.
  - exists [], w. repeat split. now rewrite app_nil_r.
  - destruct (guarded_cycle_summary e w) as [evs1 [w1 [Hrun1 [Htr1 [Hs1 Hf1]]]]].
    destruct (IH w1) as [evs2 [w2 [Hrun2 [Htr2 [Hs2 Hf2]]]]].
    exists ((EGetMessages 20 :: evs1) ++ evs2)%list, w2. split; [|split; [|split]].
    + cbn [main_loop]. unfold bind. now rewrite Hrun1.
    + now rewrite Htr2, Htr1, app_assoc.
    + rewrite sleeps_app, length_app. cbn [sleeps]. lia.
    + rewrite fetches_app. cbn [fetches repeat]. now rewrite Hf1, Hf2.
Qed.

(** C8: an exception that escapes a poll cycle is caught by the handler of
    the loop, which prints it and sleeps 5 seconds, the state being what
    the cycle left.  Every turn of the loop is such a guarded cycle: it
    returns, whatever was raised inside, having started with a fetch, and
    the next turn starts from the state it left.  So the loop itself never
    raises: cut after any number of turns it has returned from each of
    them, having polled once and slept once in every turn. *)
Theorem loop_survives_faults (e : env) :
  (forall (w w1 : world) (ex : pyexn),
     poll_cycle e w = (Raised ex, w1) ->
     guarded_cycle e w
     = (Returned tt,
        World (processed_ids w1) (processed_file w1) (conversation_history w1)
          (last_check_time w1)
          (trace w1 ++ [EPrint (PLoopError ex); ESleep 5])
          (write_attempts w1)))
  /\ (forall w : world,
        (guarded_cycle e w).1 = Returned tt
        /\ exists evs,
             trace (exec (guarded_cycle e) w)
             = (trace w ++ EGetMessages 20 :: evs)%list)
  /\ (forall (fuel : nat) (w : world),
        main_loop e (S fuel) w = main_loop e fuel (exec (guarded_cycle e) w))
  /\ (forall (fuel : nat) (w : world),
        exists w',
          main_loop e fuel w = (Returned tt, w')
          /\ length (sleeps (events_since w w')) = fuel
          /\ fetches (events_since w w') = repeat 20%nat fuel).
Proof.
  split; [|split; [|split]].
  - intros w w1 ex Hrun. unfold guarded_cycle, try_except. rewrite Hrun.
    destruct w1 as [ids1 f1 hist1 last1 tr1 att1]. run_m. now rewrite <- app_assoc.
  - intros w. destruct (guarded_cycle_summary e w) as [evs [w' [Hrun [Htr _]]]].
    unfold exec. rewrite Hrun. split; [reflexivity | now exists evs].
  - intros fuel w. destruct (guarded_cycle_summary e w) as [evs [w' [Hrun _]]].
    cbn [main_loop]. unfold bind, exec. now rewrite Hrun.
  - intros fuel w.
    destruct (main_loop_summary e fuel w) as [evs [w' [Hrun [Htr [Hs Hf]]]]].
    exists w'. split; [assumption|]. now rewrite (events_since_app _ _ _ Htr).
Qed.

Lemma loop_survives_faults_witness :
  guarded_cycle Samples.env_offline (initial_world None)
  = (Returned tt,
     World ∅ None ∅ (0 # 1)
       [EGetMessages 20; EPrint (PLoopError (Exception "ConnectionError"));
        ESleep 5] 0).
Proof.
  apply (proj1 (loop_survives_faults Samples.env_offline) (initial_world None)
           (World ∅ None ∅ (0 # 1) [EGetMessages 20] 0)
           (Exception "ConnectionError")).
  reflexivity.
Defined.

(** After a fault the loop polls again: two turns with a chat client that
    is out of reach fetch twice. *)
Example loop_resumes_example :
  trace (exec (main_loop Samples.env_offline 2) (initial_world None))
  = [EGetMessages 20; EPrint (PLoopError (Exception "ConnectionError"));
     ESleep 5;
     EGetMessages 20; EPrint (PLoopError (Exception "ConnectionError"));
     ESleep 5].
Proof. reflexivity. Qed.

(** * Further properties of the code *)

(** ** Writing an id and reading it back *)

Lemma eval_digits_app (acc : Z) (a b : string) :
  eval_digits acc (a +:+ b) = eval_digits (eval_digits acc a) b.
Proof.
  revert acc; induction a as [|c a IH]; intros acc; [reflexivity|].
  rewrite append_cons. cbn [eval_digits]. apply IH.
Qed.

Lemma all_digits_app (a b : string) :
  all_digits (a +:+ b) = all_digits a && all_digits b.
Proof.
  induction a as [|c a IH]; [reflexivity|].
  rewrite append_cons. cbn [all_digits].
  now destruct (PyStr.digit_value c).
Qed.

Lemma digit_value_pretty_char (d : N) :
  (d < 10)%N -> PyStr.digit_value (pretty_N_char d) = Some (Z.of_N d).
Proof.
  intros H.
  assert (Hd : (d = 0 \/ d = 1 \/ d = 2 \/ d = 3 \/ d = 4 \/ d = 5 \/ d = 6
                \/ d = 7 \/ d = 8 \/ d = 9)%N) by lia.
  repeat (destruct Hd as [-> | Hd]; [reflexivity|]). now subst d.
Qed.

(** The digits [pretty_N_go] puts in front of [s] are those of [x]. *)
Lemma pretty_N_go_digits (x : N) (s : string) :
  exists p, pretty_N_go x s = p +:+ s
            /\ all_digits p = true
            /\ eval_digits 0 p = Z.of_N x
            /\ ((0 < x)%N -> p <> "").
Proof.
  revert s. induction (N.lt_wf_0 x) as [x _ IH]; intros s.
  destruct (N.eq_dec x 0%N) as [-> | Hx].
  - exists "". rewrite pretty_N_go_0. repeat split. intros H. lia.
  - rewrite pretty_N_go_step by lia.
    destruct (IH (x `div` 10)%N) with (s := String (pretty_N_char (x `mod` 10)) s)
      as [p [Hp [Hd [Hv _]]]].
    { apply N.div_lt; lia. }
    assert (Hc : PyStr.digit_value (pretty_N_char (x `mod` 10))
                 = Some (Z.of_N (x `mod` 10))).
    { apply digit_value_pretty_char, N.mod_lt. lia. }
    exists (p +:+ String (pretty_N_char (x `mod` 10)) "").
    split; [now rewrite Hp, append_assoc|].
    split; [rewrite all_digits_app, Hd; cbn [all_digits andb]; now rewrite Hc|].
    split.
    + rewrite eval_digits_app, Hv. cbn [eval_digits]. rewrite Hc.
      cbn [default from_option id].
      rewrite (N.div_mod x 10) at 3 by lia. lia.
    + intros _ Hnil. destruct p; discriminate.
Qed.

Lemma pretty_N_digits (x : N) :
  all_digits (pretty x) = true /\ pretty x <> ""
  /\ eval_digits 0 (pretty x) = Z.of_N x.
Proof.
  unfold pretty, pretty_N. case_decide as Hx; [now subst x|].
  destruct (pretty_N_go_digits x "") as [p [Hp [Hd [Hv Hne]]]].
  rewrite Hp, append_nil_r. repeat split; [assumption | apply Hne; lia | assumption].
Qed.

Lemma int_digits_all_digits (acc : Z) (p : string) :
  all_digits p = true -> PyStr.int_digits acc p = Some (eval_digits acc p).
Proof.
  revert acc; induction p as [|c p IH]; intros acc H; [reflexivity|].
  cbn [all_digits] in H. cbn [PyStr.int_digits eval_digits].
  destruct (PyStr.digit_value c); [now apply IH | discriminate].
Qed.

Lemma int_unsigned_all_digits (p : string) :
  all_digits p = true -> p <> "" ->
  PyStr.int_unsigned p = Some (eval_digits 0 p).
Proof.
  intros H Hne. destruct p as [|c p]; [contradiction|].
  cbn [all_digits] in H. cbn [PyStr.int_unsigned eval_digits].
  destruct (PyStr.digit_value c) as [d|]; [|discriminate].
  rewrite int_digits_all_digits by assumption. do 2 f_equal.
Qed.

Lemma digit_not_space (c : ascii) :
  is_Some (PyStr.digit_value c) -> PyStr.is_space c = false.
Proof.
  intros [d H]. destruct c as [[] [] [] [] [] [] [] []];
    try reflexivity; discriminate.
Qed.

Lemma rstrip_all_digits (p : string) : all_digits p = true -> PyStr.rstrip p = p.
Proof.
  induction p as [|c p IH]; intros H; [reflexivity|].
  cbn [all_digits] in H. cbn [PyStr.rstrip].
  destruct (PyStr.digit_value c) as [d|] eqn:Hc; [|discriminate].
  rewrite IH by assumption. destruct p; [|reflexivity].
  now rewrite digit_not_space by (now exists d).
Qed.

Lemma strip_all_digits (p : string) : all_digits p = true -> PyStr.strip p = p.
Proof.
  intros H. unfold PyStr.strip.
  assert (Hl : PyStr.lstrip p = p).
  { destruct p as [|c p]; [reflexivity|]. cbn [all_digits] in H.
    cbn [PyStr.lstrip]. destruct (PyStr.digit_value c) as [d|] eqn:Hc; [|discriminate].
    now rewrite digit_not_space by (now exists d). }
  rewrite Hl. now apply rstrip_all_digits.
Qed.

Lemma int_all_digits (p : string) :
  all_digits p = true -> p <> "" -> PyStr.int p = Some (eval_digits 0 p).
Proof.
  intros H Hne. unfold PyStr.int. rewrite strip_all_digits by assumption.
  rewrite <- int_unsigned_all_digits by assumption.
  destruct p as [|c p]; [contradiction|]. cbn [all_digits] in H.
  destruct (PyStr.digit_value c) as [d|] eqn:Hc; [|discriminate].
  destruct c as [[] [] [] [] [] [] [] []]; try reflexivity; discriminate.
Qed.

Lemma int_minus_all_digits (p : string) :
  all_digits p = true -> p <> "" ->
  PyStr.int ("-" +:+ p) = Some (- eval_digits 0 p).
Proof.
  intros H Hne. unfold PyStr.int, PyStr.strip.
  change ("-" +:+ p) with (String "-" p).
  change (PyStr.lstrip (String "-" p)) with (String "-" p).
  assert (Hr : PyStr.rstrip (String "-" p) = String "-" p).
  { cbn [PyStr.rstrip]. rewrite rstrip_all_digits by assumption.
    destruct p; [contradiction | reflexivity]. }
  rewrite Hr, int_unsigned_all_digits by assumption. reflexivity.
Qed.

(** X1: the decimal text that [save_processed_id] writes for an id is read
    back by [int] as that id, for every integer. *)
Theorem int_pretty (z : Z) : PyStr.int (pretty z) = Some z.
Proof.
  destruct z as [|q|q]; [reflexivity| |].
  - change (pretty (Z.pos q)) with (pretty (N.pos q)).
    destruct (pretty_N_digits (N.pos q)) as [Hd [Hne Hv]].
    rewrite int_all_digits by assumption. now rewrite Hv.
  - change (pretty (Z.neg q)) with ("-" +:+ pretty (N.pos q)).
    destruct (pretty_N_digits (N.pos q)) as [Hd [Hne Hv]].
    rewrite int_minus_all_digits by assumption. now rewrite Hv.
Qed.

(** ** The log after saves *)

Lemma all_digits_plain (p : string) : all_digits p = true -> plain p = true.
Proof.
  induction p as [|c p IH]; intros H; [reflexivity|].
  cbn [all_digits] in H. cbn [plain].
  destruct (PyStr.digit_value c) as [d|] eqn:Hc; [|discriminate].
  rewrite digit_not_space by (now exists d). now apply IH.
Qed.

Lemma pretty_plain (z : Z) : plain (pretty z) = true /\ pretty z <> "".
Proof.
  destruct z as [|q|q]; [now split| |].
  - change (pretty (Z.pos q)) with (pretty (N.pos q)).
    destruct (pretty_N_digits (N.pos q)) as [Hd [Hne _]].
    split; [now apply all_digits_plain | assumption].
  - change (pretty (Z.neg q)) with (String "-" (pretty (N.pos q))).
    destruct (pretty_N_digits (N.pos q)) as [Hd _].
    split; [|discriminate]. cbn [plain]. now rewrite all_digits_plain.
Qed.

Lemma space_line_feed (c : ascii) :
  PyStr.is_space c = false -> Ascii.eqb c "010" = false.
Proof.
  intros H. destruct (Ascii.eqb_spec c "010") as [-> | Hne]; [discriminate | reflexivity].
Qed.

Lemma readlines_plain_line (p : string) :
  plain p = true -> PyStr.readlines (p +:+ nl) = [p +:+ nl].
Proof.
  induction p as [|c p IH]; intros H; [reflexivity|].
  cbn [plain] in H. apply andb_true_iff in H as [Hc Hp].
  apply negb_true_iff in Hc. rewrite append_cons. cbn [PyStr.readlines].
  now rewrite (space_line_feed c Hc), IH.
Qed.

Lemma readlines_nonempty (c : ascii) (t : string) :
  PyStr.readlines (String c t) <> [].
Proof.
  cbn [PyStr.readlines]. destruct (Ascii.eqb c "010"); [discriminate|].
  destruct (PyStr.readlines t); discriminate.
Qed.

Lemma readlines_app (a b : string) :
  terminated a = true ->
  PyStr.readlines (a +:+ b) = (PyStr.readlines a ++ PyStr.readlines b)%list.
Proof.
  induction a as [|c a IH]; intros H; [reflexivity|].
  rewrite append_cons. cbn [PyStr.readlines].
  destruct a as [|c' a'].
  - cbn [terminated] in H. rewrite H. reflexivity.
  - cbn [terminated] in H. specialize (IH H). rewrite IH.
    destruct (Ascii.eqb c "010"); [reflexivity|].
    pose proof (readlines_nonempty c' a') as Hne.
    destruct (PyStr.readlines (String c' a')); [contradiction | reflexivity].
Qed.

Lemma terminated_line (a line : string) : terminated (a +:+ line +:+ nl) = true.
Proof.
  rewrite <- append_assoc. generalize (a +:+ line). clear a line.
  intros a. induction a as [|c a IH]; [reflexivity|].
  rewrite append_cons. cbn [terminated].
  destruct (a +:+ nl) eqn:E; [destruct a; discriminate | exact IH].
Qed.

Lemma rstrip_plain_line (p : string) :
  plain p = true -> PyStr.rstrip (p +:+ nl) = p.
Proof.
  induction p as [|c p IH]; intros H; [reflexivity|].
  cbn [plain] in H. apply andb_true_iff in H as [Hc Hp].
  apply negb_true_iff in Hc. rewrite append_cons. cbn [PyStr.rstrip].
  rewrite IH by assumption. destruct p; [now rewrite Hc | reflexivity].
Qed.

Lemma strip_plain_line (p : string) :
  plain p = true -> PyStr.strip (p +:+ nl) = p.
Proof.
  intros H. unfold PyStr.strip. destruct p as [|c p]; [reflexivity|].
  assert (Hl : PyStr.lstrip (String c p +:+ nl) = String c p +:+ nl).
  { rewrite append_cons. cbn [PyStr.lstrip]. cbn [plain] in H.
    apply andb_true_iff in H as [Hc _]. apply negb_true_iff in Hc. now rewrite Hc. }
  rewrite Hl. now apply rstrip_plain_line.
Qed.

Lemma parse_ids_app (l1 l2 : list string) :
  parse_ids (l1 ++ l2)
  = match parse_ids l1, parse_ids l2 with
    | Some a, Some b => Some (a ++ b)%list
    | _, _ => None
    end.
Proof.
  induction l1 as [|l l1 IH];
    [cbn [app parse_ids]; now destruct (parse_ids l2)|].
  cbn [app parse_ids]. destruct (PyStr.strip l =? "")%string; [exact IH|].
  destruct (PyStr.int (PyStr.strip l)); [|reflexivity].
  rewrite IH. destruct (parse_ids l1), (parse_ids l2); reflexivity.
Qed.

(** The line [save_processed_id] writes is read back as its id. *)
Lemma parse_ids_saved_line (id : Z) :
  parse_ids [pretty id +:+ nl] = Some [id].
Proof.
  destruct (pretty_plain id) as [Hp Hne]. cbn [parse_ids].
  rewrite strip_plain_line by assumption.
  apply String.eqb_neq in Hne. now rewrite Hne, int_pretty.
Qed.

Lemma parse_ids_save (written : bool) (id : Z) (f : file) :
  terminated (file_text f) = true ->
  parse_ids (PyStr.readlines (file_text (save_processed_id written id f)))
  = match parse_ids (PyStr.readlines (file_text f)) with
    | Some ids => Some (ids ++ (if written then [id] else []))%list
    | None => None
    end.
Proof.
  intros Ht. destruct written.
  - rewrite file_text_save. cbn [written_line].
    rewrite readlines_app by assumption.
    rewrite readlines_plain_line by apply pretty_plain.
    now rewrite parse_ids_app, parse_ids_saved_line.
  - change (save_processed_id false id f) with f.
    destruct (parse_ids _); [now rewrite app_nil_r | reflexivity].
Qed.

Lemma terminated_save (written : bool) (id : Z) (f : file) :
  terminated (file_text f) = true ->
  terminated (file_text (save_processed_id written id f)) = true.
Proof.
  intros Ht. destruct written; [|exact Ht].
  rewrite file_text_save. apply terminated_line.
Qed.

Lemma load_loadable (f : file) (ids : list Z) :
  parse_ids (PyStr.readlines (file_text f)) = Some ids ->
  load_processed_ids f = list_to_set ids.
Proof.
  intros Hids. destruct f as [content|]; unfold load_processed_ids.
  - unfold file_text in Hids. cbn in Hids. now rewrite Hids.
  - cbn in Hids. now inversion Hids.
Qed.

(** A write that goes through adds its id to what is loaded; a swallowed
    one leaves the log as it was. *)
Lemma loadable_save (written : bool) (id : Z) (f : file) :
  loadable f ->
  loadable (save_processed_id written id f)
  /\ load_processed_ids (save_processed_id written id f)
     = (if written then {[id]} ∪ load_processed_ids f
        else load_processed_ids f).
Proof.
  intros Hl. destruct written; [|now split].
  destruct Hl as [Ht [ids Hids]].
  pose proof (parse_ids_save true id f Ht) as Hs.
  rewrite Hids in Hs. split.
  - split; [now apply terminated_save | now rewrite Hs].
  - rewrite (load_loadable _ _ Hs), (load_loadable _ _ Hids).
    rewrite list_to_set_app_L. cbn [list_to_set].
    rewrite (right_id_L ∅ (∪)). apply (comm_L (∪)).
Qed.

Lemma written_ids_cons (written : bool) (id : Z) (calls : list (bool * Z)) :
  written_ids ((written, id) :: calls)
  = if written then id :: written_ids calls else written_ids calls.
Proof.
  unfold written_ids. rewrite filter_cons. cbn [fst].
  destruct written; case_decide; try discriminate; try congruence; reflexivity.
Qed.

(** X2: the calls of [save_processed_id] on a loadable log (a missing file
    is one) leave it loadable, and loading afterwards gives what loading
    gave before together with the ids of the calls whose write went
    through, and no other: an id whose write failed is read back only if
    it was in the log or another call wrote it. *)
Theorem load_after_saves (calls : list (bool * Z)) (f : file) :
  loadable f ->
  loadable (saves calls f)
  /\ load_processed_ids (saves calls f)
     = load_processed_ids f ∪ list_to_set (written_ids calls).
Proof.
  revert f; induction calls as [|[written id] calls IH]; intros f Hf.
  - split; [assumption|]. cbn. now rewrite (right_id_L ∅ (∪)).
  - destruct (loadable_save written id f Hf) as [Hl Hload].
    destruct (IH _ Hl) as [Hl' Hload']. split; [exact Hl'|].
    change (saves ((written, id) :: calls) f)
      with (saves calls (save_processed_id written id f)).
    rewrite Hload', Hload, written_ids_cons. destruct written; [|reflexivity].
    cbn [list_to_set].
    rewrite (comm_L (∪) {[id]}). now rewrite (assoc_L (∪)).
Qed.

Lemma load_after_saves_witness :
  load_processed_ids (saves [(true, 42); (false, 5); (true, -7)] None)
  = load_processed_ids None ∪ list_to_set (written_ids [(true, 42); (false, 5); (true, -7)]).
Proof.
  apply (load_after_saves [(true, 42); (false, 5); (true, -7)] None).
  split; [reflexivity | now exists []].
Defined.

(** The ids read back in the example are 42 and -7; the id 5, whose write
    failed, is not among them. *)
Example load_after_saves_example :
  written_ids [(true, 42); (false, 5); (true, -7)] = [42; -7]
  /\ file_text (saves [(true, 42); (false, 5); (true, -7)] None)
     = "42" +:+ nl +:+ "-7" +:+ nl.
Proof. split; reflexivity. Qed.

(** X3: one malformed line poisons the log for good: when the text ends
    with a line feed and loading it fails on some line, every later load
    returns the empty set, whatever ids are saved in between and whichever
    of the writes go through. *)
Theorem malformed_log_stays_empty (calls : list (bool * Z)) (f : file) :
  terminated (file_text f) = true ->
  parse_ids (PyStr.readlines (file_text f)) = None ->
  load_processed_ids (saves calls f) = ∅
  /\ terminated (file_text (saves calls f)) = true
  /\ parse_ids (PyStr.readlines (file_text (saves calls f))) = None.
Proof.
  revert f; induction calls as [|[written id] calls IH]; intros f Ht Hp.
  - change (saves [] f) with f.
    split; [|now split]. destruct f as [content|]; [|reflexivity].
    unfold load_processed_ids. unfold file_text in Hp. cbn in Hp. now rewrite Hp.
  - change (saves ((written, id) :: calls) f)
      with (saves calls (save_processed_id written id f)).
    apply IH.
    + now apply terminated_save.
    + now rewrite parse_ids_save, Hp.
Qed.

Lemma malformed_log_stays_empty_witness :
  load_processed_ids (saves [(true, 42)] (Some ("abc" +:+ nl))) = ∅.
Proof.
  apply (malformed_log_stays_empty [(true, 42)] (Some ("abc" +:+ nl)));
    reflexivity.
Defined.

(** ** Invariants of the loop *)

Section LoopInvariant.

Variable e : env.
Variable I : gset Z -> file -> history_store -> Prop.
Variable P : message -> Prop.

Hypothesis P_fetched : forall m, fetched e m -> P m.
Hypothesis I_message :
  forall msg w, P msg -> holds I w -> holds I (exec (process_message e msg) w).
Hypothesis I_cleanup :
  forall ids f h,
    I ids f h -> I (list_to_set (py_last 1000 (set_order e ids))) f h.

Lemma for_each_invariant (l : list message) (w : world) :
  Forall P l -> holds I w -> holds I (exec (for_each l (process_message e)) w).
Proof.
  revert w; induction l as [|m l IH]; intros w Hl Hw; [exact Hw|].
  apply Forall_cons in Hl as [Hm Hl].
  destruct (process_message_summary e m w) as [evs [w1 [Hrun _]]].
  unfold exec. rewrite (for_each_cons _ _ _ _ _ Hrun). apply IH; [assumption|].
  specialize (I_message m w Hm Hw). unfold exec in I_message.
  now rewrite Hrun in I_message.
Qed.

Lemma periodic_cleanup_invariant (w : world) :
  holds I w -> holds I (exec (periodic_cleanup e) w).
Proof.
  destruct w as [ids f hist last tr att]. unfold holds, periodic_cleanup. run_m.
  intros Hw. destruct (Qlt_bool _ _); [|exact Hw].
  destruct (1000 <? size ids)%nat; [now apply I_cleanup | exact Hw].
Qed.

Lemma guarded_cycle_invariant (w : world) :
  holds I w -> holds I (exec (guarded_cycle e) w).
Proof.
  destruct w as [ids f hist last tr att]. intros Hw.
  unfold exec, guarded_cycle, poll_cycle. run_m.
  destruct (get_messages e _ _) as [messages|ex] eqn:Hget; [|exact Hw].
  assert (HP : Forall P (reverse messages)).
  { apply list.Forall_forall. intros m Hm. apply P_fetched.
    exists (length tr), messages. split; [exact Hget|].
    now apply (proj1 (elem_of_reverse m messages)). }
  unfold process_batch.
  match goal with
  | |- context [for_each ?l ?body ?w0] =>
      pose proof (for_each_invariant l w0 HP Hw) as Hb;
      destruct (for_each_summary e l w0) as [evs1 [w1 [Hrun _]]]
  end.
  unfold exec in Hb. rewrite Hrun in Hb. rewrite Hrun. cbn [snd] in Hb.
  destruct w1 as [ids1 f1 hist1 last1 tr1 att1]. cbv beta iota.
  match goal with
  | |- context [periodic_cleanup e ?w0] =>
      pose proof (periodic_cleanup_invariant w0 Hb) as Hc;
      destruct (periodic_cleanup_summary e w0) as [evs2 [w2 [Hrun2 _]]]
  end.
  unfold exec in Hc. rewrite Hrun2 in Hc. rewrite Hrun2. exact Hc.
Qed.

Lemma main_loop_invariant (fuel : nat) (w : world) :
  holds I w -> holds I (exec (main_loop e fuel) w).
Proof.
  revert w; induction fuel as [|fuel IH]; intros w Hw; [exact Hw|].
  destruct (guarded_cycle_summary e w) as [evs [w1 [Hrun _]]].
  pose proof (guarded_cycle_invariant w Hw) as H1.
  unfold exec in *. cbn [main_loop]. unfold bind. rewrite Hrun in *.
  now apply IH.
Qed.

Lemma polling_invariant (fuel : nat) (w : world) :
  I (load_processed_ids (processed_file w)) (processed_file w)
    (conversation_history w) ->
  holds I (exec (polling e fuel) w).
Proof.
  intros Hw.
  assert (H0 : holds I (exec (start_polling e) w)).
  { destruct w as [ids f hist last tr att]. unfold exec, holds, start_polling. run_m.
    destruct (get_messages e _ _) as [[|m rest]|ex]; exact Hw. }
  pose proof (main_loop_invariant fuel _ H0) as H1.
  destruct (start_polling_loads e w) as [Hret _].
  unfold exec, polling, bind in *.
  destruct (start_polling e w) as [[[]|ex] w0]; [exact H1 | discriminate].
Qed.

End LoopInvariant.

(** With a log that takes every write, one iteration keeps the log
    loadable and covering the set. *)
Lemma durable_message (e : env) (msg : message) (w : world) :
  store_reliable e ->
  holds durable w -> holds durable (exec (process_message e msg) w).
Proof.
  intros Hrel. unfold holds, durable.
  destruct (process_message_effect e msg w) as [_ [_ [Hids [Hfile _]]]].
  rewrite Hids, Hfile, !Hrel. intros [Hl Hsub].
  destruct (skipped msg (processed_ids w)); [now split|].
  destruct (loadable_save true (msg_id msg) _ Hl) as [Hl1 Hload1].
  destruct (records_in_branch e msg w).
  - destruct (loadable_save true (msg_id msg) _ Hl1) as [Hl2 Hload2].
    split; [assumption|]. rewrite Hload2, Hload1, add_twice.
    now apply union_mono_l.
  - split; [assumption|]. rewrite Hload1. now apply union_mono_l.
Qed.

(** X4: when the log can be loaded at start-up, takes every write, and
    [list] lists a set faithfully, then after start-up and any number of
    turns of the loop the log can still be loaded and holds every id of the
    set in memory: a restart loads at least what memory held, cleanups
    included.  (With a write that fails this is lost: see
    [log_misses_memory_example].) *)
Theorem log_covers_memory (e : env) (fuel : nat) (w : world) :
  env_ok e ->
  store_reliable e ->
  loadable (processed_file w) ->
  let w' := exec (polling e fuel) w in
  loadable (processed_file w')
  /\ processed_ids w' ⊆ load_processed_ids (processed_file w')
  /\ (forall e', processed_ids w' ⊆ processed_ids (exec (start_polling e') w')).
Proof.
  intros Hok Hrel Hl w'.
  assert (H : holds durable w').
  { apply (polling_invariant e durable (fun _ => True)).
    - trivial.
    - intros msg w0 _. now apply durable_message.
    - intros ids f h [Hf Hsub]. split; [assumption|].
      etransitivity; [now apply kept_subset | assumption].
    - now split. }
  destruct H as [Hl' Hsub]. split; [assumption|]. split; [assumption|].
  intros e'. destruct (start_polling_loads e' w') as [_ [-> _]]. assumption.
Qed.

Lemma log_covers_memory_witness :
  processed_ids (exec (polling Samples.env_inbox 3) (initial_world None))
  ⊆ load_processed_ids
      (processed_file (exec (polling Samples.env_inbox 3) (initial_world None))).
Proof.
  refine (proj1 (proj2 (log_covers_memory Samples.env_inbox 3
                          (initial_world None) _ _ _))).
  - intros s. reflexivity.
  - intros n. reflexivity.
  - split; [reflexivity | now exists []].
Defined.

(** In that run the set holds the two ids fetched, and the log holds each
    of them twice. *)
Example log_covers_memory_example :
  let w' := exec (polling Samples.env_inbox 3) (initial_world None) in
  processed_ids w' = {[42; 43]}
  /\ log_text w'
     = "42" +:+ nl +:+ "42" +:+ nl +:+ "43" +:+ nl +:+ "43" +:+ nl.
Proof. cbv zeta. split; vm_compute; reflexivity. Qed.

(** With a log that refuses the writes, the ids answered are in the set
    and not in the log: after a restart they are answered again. *)
Example log_misses_memory_example :
  let w' := exec (polling Samples.env_disk_full 3) (initial_world None) in
  processed_ids w' = {[42; 43]}
  /\ processed_file w' = None
  /\ load_processed_ids (processed_file w') = ∅
  /\ replied_ids (events_since w' (exec (polling Samples.env_disk_full 1) w'))
     = [42; 43].
Proof. cbv zeta. repeat split; vm_compute; reflexivity. Qed.

Lemma user_turns_message (e : env) (msg : message) (w : world) :
  holds user_turns_only w -> holds user_turns_only (exec (process_message e msg) w).
Proof.
  unfold holds, user_turns_only.
  destruct (process_message_effect e msg w) as [_ [Hh _]].
  rewrite Hh. intros Hw.
  destruct (skipped msg (processed_ids w)); [assumption|].
  destruct (is_private msg); [|assumption].
  intros u. rewrite history_of_touch, history_of_update.
  case_decide as Hu; [subst u | apply Hw].
  split; [rewrite py_last_length; lia|].
  intros t Ht. apply (subseteq_drop _ _ t) in Ht.
  apply elem_of_app in Ht as [Ht | Ht%list_elem_of_singleton].
  - now apply (Hw (sender_id msg)).
  - now subst t.
Qed.

(** One iteration adds to the memory nothing but the turn of its message. *)
Lemma turns_from_message (e : env) (h0 : history_store) (msg : message)
    (w : world) :
  fetched e msg ->
  holds (turns_from e h0) w ->
  holds (turns_from e h0) (exec (process_message e msg) w).
Proof.
  intros Hf. unfold holds, turns_from.
  destruct (process_message_effect e msg w) as [_ [Hh _]].
  rewrite Hh. intros Hw.
  destruct (skipped msg (processed_ids w)) eqn:Hs; [assumption|].
  destruct (is_private msg) eqn:Hp; [|assumption].
  intros u t. rewrite history_of_touch, history_of_update.
  case_decide as Hu; [subst u | apply Hw].
  intros Ht. apply (subseteq_drop _ _ t) in Ht.
  apply elem_of_app in Ht as [Ht | Ht%list_elem_of_singleton].
  - now apply Hw.
  - right. exists msg. unfold skipped in Hs.
    apply orb_false_iff in Hs as [Hs _]. apply orb_false_iff in Hs as [Ho _].
    repeat split; assumption.
Qed.

(** The set and the memory after the [for] loop depend on the messages and
    on the set and the memory before, and on nothing else: not on what the
    backend answers, on whether a reply or a write goes through, or on the
    clock. *)
Lemma for_each_memory (e e' : env) (l : list message) (w w' : world) :
  processed_ids w = processed_ids w' ->
  conversation_history w = conversation_history w' ->
  processed_ids (exec (for_each l (process_message e)) w)
  = processed_ids (exec (for_each l (process_message e')) w')
  /\ conversation_history (exec (for_each l (process_message e)) w)
     = conversation_history (exec (for_each l (process_message e')) w').
Proof.
  revert w w'; induction l as [|m l IH]; intros w w' Hi Hh; [now split|].
  destruct (process_message_summary e m w) as [evs [w1 [Hrun _]]].
  destruct (process_message_summary e' m w') as [evs' [w1' [Hrun' _]]].
  destruct (process_message_effect e m w) as [_ [Hh1 [Hi1 _]]].
  destruct (process_message_effect e' m w') as [_ [Hh1' [Hi1' _]]].
  unfold exec in *.
  rewrite (for_each_cons _ _ _ _ _ Hrun), (for_each_cons _ _ _ _ _ Hrun').
  rewrite Hrun in Hh1, Hi1. rewrite Hrun' in Hh1', Hi1'. cbn [snd] in *.
  apply IH.
  - now rewrite Hi1, Hi1', Hi.
  - now rewrite Hh1, Hh1', Hi, Hh.
Qed.

(** X5: the memory holds what users wrote and nothing else.  When every
    stored turn has the role "User" and every history at most
    [2 * MAX_HISTORY] turns, then after start-up and any number of turns of
    the loop every history still has at most that many turns, and each
    stored turn was stored before or is the role "User" with the text of
    an incoming private message of that user which the loop fetched.
    What the backend answers is never added: the memory after a batch is
    the same whatever the backend, the replies and the writes do. *)
Theorem memory_holds_user_turns_only (e : env) (fuel : nat) (w : world) :
  (forall u, (length (history_of (conversation_history w) u)
              <= MAX_HISTORY * 2)%nat
             /\ forall t, t ∈ history_of (conversation_history w) u ->
                          t.1 = "User") ->
  (forall u,
     let h' := history_of (conversation_history (exec (polling e fuel) w)) u in
     (length h' <= MAX_HISTORY * 2)%nat
     /\ forall t, t ∈ h' ->
          t.1 = "User"
          /\ (t ∈ history_of (conversation_history w) u
              \/ fetched_user_turn e u t))
  /\ (forall (e' : env) (messages : list message) (w0 : world),
        conversation_history (exec (process_batch e' messages) w0)
        = conversation_history (exec (process_batch e messages) w0)).
Proof.
  intros Hw. split.
  - assert (H1 : holds user_turns_only (exec (polling e fuel) w)).
    { apply (polling_invariant e user_turns_only (fun _ => True)).
      - trivial.
      - intros msg w0 _. apply user_turns_message.
      - intros ids f h H. exact H.
      - exact Hw. }
    assert (H2 : holds (turns_from e (conversation_history w))
                   (exec (polling e fuel) w)).
    { apply (polling_invariant e (turns_from e (conversation_history w))
               (fetched e)).
      - trivial.
      - intros msg w0. apply turns_from_message.
      - intros ids f h H. exact H.
      - intros u t Ht. now left. }
    intros u h'. subst h'. destruct (H1 u) as [Hlen Hrole].
    split; [exact Hlen|]. intros t Ht. split; [now apply Hrole | now apply H2].
  - intros e' messages w0. unfold process_batch.
    now apply for_each_memory.
Qed.

Lemma memory_holds_user_turns_only_witness :
  let h' :=
    history_of
      (conversation_history
         (exec (polling Samples.env_inbox 2) (initial_world None))) 7 in
  (length h' <= MAX_HISTORY * 2)%nat
  /\ (("User", "Hello").1 = "User"
      /\ (("User", "Hello")
            ∈ history_of (conversation_history (initial_world None)) 7
          \/ fetched_user_turn Samples.env_inbox 7 ("User", "Hello"))).
Proof.
  intros h'.
  assert (Hw : forall u,
             (length (history_of (conversation_history (initial_world None)) u)
              <= MAX_HISTORY * 2)%nat
             /\ forall t,
                  t ∈ history_of (conversation_history (initial_world None)) u ->
                  t.1 = "User").
  { intros u. unfold history_of. cbn [conversation_history initial_world].
    rewrite lookup_empty. split; [cbn; lia|]. intros t Ht. inversion Ht. }
  destruct (proj1 (memory_holds_user_turns_only Samples.env_inbox 2
                     (initial_world None) Hw) 7) as [Hlen Hturns].
  split; [exact Hlen|]. apply Hturns.
  assert (Hh : history_of
                 (conversation_history
                    (exec (polling Samples.env_inbox 2) (initial_world None))) 7
               = [("User", "Hello")]) by (vm_compute; reflexivity).
  rewrite Hh. apply list_elem_of_here.
Defined.

(** In that run two messages are answered with "Hi"; the memory holds the
    text of each message under its sender, and no "Hi". *)
Example memory_example :
  let w' := exec (polling Samples.env_inbox 2) (initial_world None) in
  history_of (conversation_history w') 7 = [("User", "Hello")]
  /\ history_of (conversation_history w') 8 = [("User", "Howdy")]
  /\ replies (trace w') = [(42, "Hi"); (43, "Hi")].
Proof. cbv zeta. repeat split; vm_compute; reflexivity. Qed.

Lemma extends_log_message (e : env) (before : string) (msg : message) (w : world) :
  holds (extends_log before) w ->
  holds (extends_log before) (exec (process_message e msg) w).
Proof.
  unfold holds, extends_log.
  destruct (process_message_effect e msg w) as [_ [_ [_ [Hfile _]]]].
  rewrite Hfile. intros [written Hw].
  destruct (skipped msg (processed_ids w)); [now exists written|].
  destruct (records_in_branch e msg w); rewrite !file_text_save, Hw;
    eexists; rewrite !append_assoc; reflexivity.
Qed.

(** X6: the loop only appends to the log: after start-up and any number of
    turns, cleanups included, the text of the log starts with the text it
    had before. *)
Theorem log_is_append_only (e : env) (fuel : nat) (w : world) :
  exists written,
    log_text (exec (polling e fuel) w) = log_text w +:+ written.
Proof.
  apply (polling_invariant e (extends_log (log_text w)) (fun _ => True)).
  - trivial.
  - intros msg w0 _. apply extends_log_message.
  - intros ids f h H. exact H.
  - exists "". unfold log_text. now rewrite append_nil_r.
Qed.

(** ** Fetching the same messages again *)

Lemma process_message_ids_mono (e : env) (msg : message) (w : world) :
  processed_ids w ⊆ processed_ids (exec (process_message e msg) w).
Proof.
  destruct (process_message_effect e msg w) as [_ [_ [-> _]]].
  destruct (skipped msg (processed_ids w)); [reflexivity | apply union_subseteq_r].
Qed.

Lemma process_message_marks (e : env) (msg : message) (w : world) :
  skipped msg (processed_ids (exec (process_message e msg) w)) = true.
Proof.
  destruct (process_message_effect e msg w) as [_ [_ [-> _]]].
  destruct (skipped msg (processed_ids w)) eqn:Hs; [assumption|].
  apply skipped_true. right; right. apply in_add.
Qed.

Lemma for_each_ids_mono (e : env) (l : list message) (w : world) :
  processed_ids w ⊆ processed_ids (exec (for_each l (process_message e)) w).
Proof.
  revert w; induction l as [|m l IH]; intros w; [reflexivity|].
  destruct (process_message_summary e m w) as [evs [w1 [Hrun _]]].
  pose proof (process_message_ids_mono e m w) as H1.
  unfold exec in *. rewrite (for_each_cons _ _ _ _ _ Hrun).
  rewrite Hrun in H1. etransitivity; [exact H1 | apply IH].
Qed.

Lemma for_each_marks_all (e : env) (l : list message) (w : world) (m : message) :
  m ∈ l ->
  skipped m (processed_ids (exec (for_each l (process_message e)) w)) = true.
Proof.
  revert w; induction l as [|m' l IH]; intros w Hm; [inversion Hm|].
  destruct (process_message_summary e m' w) as [evs [w1 [Hrun _]]].
  pose proof (process_message_marks e m' w) as H1.
  unfold exec in *. rewrite (for_each_cons _ _ _ _ _ Hrun).
  rewrite Hrun in H1. cbn [snd] in H1.
  apply elem_of_cons in Hm as [-> | Hm]; [|now apply IH].
  eapply skipped_mono; [|exact H1]. apply (for_each_ids_mono e l w1).
Qed.

Lemma for_each_skips (e : env) (l : list message) (w : world) :
  (forall m, m ∈ l -> skipped m (processed_ids w) = true) ->
  for_each l (process_message e) w = (Returned tt, w).
Proof.
  induction l as [|m l IH]; intros Hall; [reflexivity|].
  rewrite (for_each_cons _ _ _ _ w).
  - apply IH. intros m' Hm'. apply Hall. now right.
  - apply process_message_skipped, Hall. now left.
Qed.

(** X7: once a batch has been processed, processing any messages of that
    batch again, in any order and whatever the collaborators would answer,
    changes nothing: no call, no reply, no write.  This is what makes the
    overlapping fetches of the last 20 messages harmless. *)
Theorem batch_is_idempotent (e e' : env) (messages again : list message)
    (w : world) :
  (forall m, m ∈ again -> m ∈ messages) ->
  let w1 := exec (process_batch e messages) w in
  process_batch e' again w1 = (Returned tt, w1).
Proof.
  intros Hsub w1. unfold process_batch. apply for_each_skips.
  intros m Hm. apply elem_of_reverse, Hsub in Hm.
  subst w1. unfold process_batch.
  apply for_each_marks_all. now apply elem_of_reverse.
Qed.

Lemma batch_is_idempotent_witness :
  process_batch Samples.env_method_error [Samples.hello]
    (exec (process_batch Samples.env_hi [Samples.hello; Samples.hello_group])
       (initial_world None))
  = (Returned tt,
     exec (process_batch Samples.env_hi [Samples.hello; Samples.hello_group])
       (initial_world None)).
Proof.
  apply (batch_is_idempotent Samples.env_hi Samples.env_method_error
           [Samples.hello; Samples.hello_group] [Samples.hello]
           (initial_world None)).
  intros m Hm. apply list_elem_of_singleton in Hm as ->. now left.
Defined.

(** ** At most one reply for an id *)

Lemma fresh_step_trans (w w1 w2 : world) (evs1 evs2 : list event) :
  fresh_step w evs1 w1 -> fresh_step w1 evs2 w2 ->
  fresh_step w (evs1 ++ evs2) w2.
Proof.
  intros [Ht1 [Hn1 [Hr1 [Hs1 Hl1]]]] [Ht2 [Hn2 [Hr2 [Hs2 Hl2]]]].
  split; [now rewrite Ht2, Ht1, app_assoc|].
  rewrite replied_ids_app. split; [|split; [|split]].
  - apply NoDup_app. split; [assumption|]. split; [|assumption].
    intros x Hx1 Hx2. apply Hr1 in Hx1 as [_ Hin]. apply Hr2 in Hx2 as [Hout _].
    contradiction.
  - intros x [Hx | Hx]%elem_of_app.
    + apply Hr1 in Hx as [Hout Hin]. split; [assumption | now apply Hs2].
    + apply Hr2 in Hx as [Hout Hin]. split; [|assumption].
      intros Hw. apply Hout. now apply Hs1.
  - transitivity (processed_ids w1); assumption.
  - congruence.
Qed.

Lemma fresh_step_silent (w w' : world) (evs : list event) :
  trace w' = (trace w ++ evs)%list -> replied_ids evs = [] ->
  processed_ids w' = processed_ids w ->
  last_check_time w' = last_check_time w ->
  fresh_step w evs w'.
Proof.
  intros Ht Hr Hi Hl. split; [assumption|]. rewrite Hr, Hi.
  split; [constructor|]. split; [|now split].
  intros x Hx. inversion Hx.
Qed.

Lemma process_message_fresh (e : env) (msg : message) (w : world) :
  exists evs w',
    process_message e msg w = (Returned tt, w') /\ fresh_step w evs w'.
Proof.
  destruct (skipped msg (processed_ids w)) eqn:Hs.
  - exists [], w. split; [now apply process_message_skipped|].
    apply fresh_step_silent; try reflexivity. now rewrite app_nil_r.
  - destruct (process_message_summary e msg w)
      as [evs [w' [Hrun [Htr [_ [Hrep [Hids Hlast]]]]]]].
    rewrite Hs in Hids. exists evs, w'. split; [assumption|].
    split; [assumption|]. split; [|split; [|split]].
    + destruct Hrep as [-> | ->]; [constructor | apply NoDup_singleton].
    + intros x Hx. destruct Hrep as [Hr | Hr]; rewrite Hr in Hx; [inversion Hx|].
      apply list_elem_of_singleton in Hx as ->. rewrite Hids.
      split; [now apply skipped_false_fresh | apply in_add].
    + rewrite Hids. apply union_subseteq_r.
    + assumption.
Qed.

Lemma for_each_fresh (e : env) (l : list message) (w : world) :
  exists evs w',
    for_each l (process_message e) w = (Returned tt, w') /\ fresh_step w evs w'.
Proof.
  revert w; induction l as [|m l IH]; intros w.
  - exists [], w. split; [reflexivity|].
    apply fresh_step_silent; try reflexivity. now rewrite app_nil_r.
  - destruct (process_message_fresh e m w) as [evs1 [w1 [Hrun1 H1]]].
    destruct (IH w1) as [evs2 [w2 [Hrun2 H2]]].
    exists (evs1 ++ evs2)%list, w2.
    split; [now rewrite (for_each_cons _ _ _ _ _ Hrun1)|].
    now apply (fresh_step_trans w w1 w2).
Qed.

Lemma guarded_cycle_fresh (e : env) (w : world) :
  no_cleanup_due e w ->
  exists evs w',
    guarded_cycle e w = (Returned tt, w') /\ fresh_step w evs w'.
Proof.
  intros Hidle. destruct w as [ids f hist last tr att].
  unfold no_cleanup_due in Hidle. cbn [last_check_time] in Hidle.
  unfold guarded_cycle, poll_cycle. run_m.
  destruct (get_messages e _ _) as [messages|ex].
  - unfold process_batch.
    match goal with
    | |- context [for_each ?l ?body ?w0] =>
        destruct (for_each_fresh e l w0) as [evs1 [w1 [-> H1]]]
    end.
    destruct w1 as [ids1 f1 hist1 last1 tr1 att1]. cbv beta iota.
    unfold periodic_cleanup. run_m.
    assert (Hlast : last1 = last) by apply H1. subst last1.
    rewrite (Hidle (length (tr1 ++ [ESleep 2]))).
    eexists ([EGetMessages 20] ++ evs1 ++ [ESleep 2; EClock _])%list, _.
    split; [reflexivity|].
    apply (fresh_step_trans _ (World ids f hist last (tr ++ [EGetMessages 20]) att)).
    { now apply fresh_step_silent. }
    apply (fresh_step_trans _ (World ids1 f1 hist1 last tr1 att1)); [exact H1|].
    apply fresh_step_silent; try reflexivity.
    cbn [trace]. now rewrite <- app_assoc.
  - eexists [EGetMessages 20; EPrint (PLoopError ex); ESleep 5], _.
    split; [reflexivity|].
    apply fresh_step_silent; try reflexivity.
    cbn [trace]. now rewrite <- !app_assoc.
Qed.

Lemma main_loop_fresh (e : env) (fuel : nat) (w : world) :
  no_cleanup_due e w ->
  exists evs w',
    main_loop e fuel w = (Returned tt, w') /\ fresh_step w evs w'.
Proof.
  revert w; induction fuel as [|fuel IH]; intros w Hidle.
  - exists [], w. split; [reflexivity|].
    apply fresh_step_silent; try reflexivity. now rewrite app_nil_r.
  - destruct (guarded_cycle_fresh e w Hidle) as [evs1 [w1 [Hrun1 H1]]].
    destruct (IH w1) as [evs2 [w2 [Hrun2 H2]]].
    { intros n. unfold no_cleanup_due in Hidle.
      destruct H1 as [_ [_ [_ [_ ->]]]]. apply Hidle. }
    exists (evs1 ++ evs2)%list, w2. split.
    + cbn [main_loop]. unfold bind. now rewrite Hrun1.
    + now apply (fresh_step_trans w w1 w2).
Qed.

(** X8: as long as no cleanup is due (no clock reading more than 600
    seconds after the last check), the loop replies at most once for an id,
    and never for an id that was in the set already, whatever is fetched
    and however often; every id replied to ends in the set. *)
Theorem at_most_one_reply_per_id (e : env) (fuel : nat) (w : world) :
  no_cleanup_due e w ->
  let w' := exec (main_loop e fuel) w in
  let replied := replied_ids (events_since w w') in
  NoDup replied
  /\ (forall x, x ∈ replied ->
        (x ∉ processed_ids w) /\ (x ∈ processed_ids w'))
  /\ processed_ids w ⊆ processed_ids w'.
Proof.
  intros Hidle w' replied. subst w' replied.
  destruct (main_loop_fresh e fuel w Hidle)
    as [evs [w' [Hrun [Htr [Hnd [Hr [Hs _]]]]]]].
  unfold exec. rewrite Hrun. cbn [snd].
  rewrite (events_since_app _ _ _ Htr). now split.
Qed.

Lemma at_most_one_reply_per_id_witness :
  NoDup
    (replied_ids
       (events_since (initial_world None)
          (exec (main_loop Samples.env_inbox 5) (initial_world None)))).
Proof.
  refine (proj1 (at_most_one_reply_per_id Samples.env_inbox 5
                   (initial_world None) _)).
  intros n. reflexivity.
Defined.

(** In that run the same two messages are fetched in each of the five
    turns, and each is replied to once. *)
Example replies_once_example :
  let w' := exec (main_loop Samples.env_inbox 5) (initial_world None) in
  fetches (trace w') = [20; 20; 20; 20; 20]%nat
  /\ replied_ids (events_since (initial_world None) w') = [42; 43].
Proof. cbv zeta. split; vm_compute; reflexivity. Qed.

(** ** Replies and log lines of one iteration *)

Lemma replies_app (a b : list event) :
  replies (a ++ b) = (replies a ++ replies b)%list.
Proof.
  induction a as [|ev a IH]; [reflexivity|].
  destruct ev; simpl; now rewrite ?IH.
Qed.

(** X9: one iteration replies only for a message that passes the filter
    and is private, and only when the backend returned a dictionary with a
    ['result'] (also when it has an ['error'] as well): then once, with
    the ['content'] of the result or else its [str()].  Nothing is replied
    for an error, an unrecognized answer or a backend call that raised. *)
Theorem reply_only_for_result (e : env) (msg : message) (w : world) :
  replies (events_since w (exec (process_message e msg) w))
  = if skipped msg (processed_ids w) || negb (is_private msg) then []
    else expected_replies msg (backend_answer e msg w).
Proof.
  destruct w as [ids f hist last tr att]. unfold expected_replies. run_m.
  destruct (skipped msg ids); [now rewrite drop_all|].
  destruct (is_private msg); [|now rewrite drop_all]. cbn [orb negb].
  destruct (generate_G2_flash e _ _) as [[d|ty]|ex];
    [|now rewrite <- !app_assoc, drop_app_length..].
  cbv beta iota. destruct (result d) as [res|].
  - destruct (reply e _ _ _) as [[]|ex];
      now rewrite <- !app_assoc, drop_app_length.
  - destruct (error d) as [[m|s|]|];
      [destruct (negb _)|..]; now rewrite <- !app_assoc, drop_app_length.
Qed.

(** X10: for a message that passes the filter one write of its id to the
    log is attempted, or two when the branch of the response records it
    too (a result whose reply was sent, or an error whose message does
    not contain "method").  An attempt that goes through appends the line
    of the id, one that fails appends nothing, and nothing else is
    written.  So with a log that takes every write the id is written
    exactly once, or exactly twice: once for a message outside a private
    chat, for a backend call or a reply that raises, for an unrecognized
    answer, and for an error that mentions "method". *)
Theorem log_lines_of_one_message (e : env) (msg : message) (w : world) :
  skipped msg (processed_ids w) = false ->
  let w' := exec (process_message e msg) w in
  let a := write_attempts w in
  let twice := records_in_branch e msg w in
  let line := pretty (msg_id msg) +:+ nl in
  write_attempts w' = (if twice then S (S a) else S a)
  /\ log_text w'
     = log_text w +:+ written_line (write_succeeds e a) (msg_id msg)
       +:+ (if twice then written_line (write_succeeds e (S a)) (msg_id msg)
            else "")
  /\ (store_reliable e ->
      log_text w' = log_text w +:+ (if twice then line +:+ line else line)).
Proof.
  intros Hs w' a twice line. subst w' a twice line.
  pose proof (process_message_log e msg w Hs) as Hlog. cbv zeta in Hlog.
  destruct (records_in_branch e msg w); destruct Hlog as [Hatt Htext].
  - split; [exact Hatt|]. split; [exact Htext|].
    intros Hrel. now rewrite Htext, !Hrel.
  - split; [exact Hatt|]. split; [now rewrite Htext, !append_nil_r|].
    intros Hrel. now rewrite Htext, Hrel.
Qed.

Lemma log_lines_of_one_message_witness :
  let w := initial_world None in
  let w' := exec (process_message Samples.env_disk_full Samples.hello) w in
  let a := write_attempts w in
  let twice := records_in_branch Samples.env_disk_full Samples.hello w in
  write_attempts w' = (if twice then S (S a) else S a)
  /\ log_text w'
     = log_text w
       +:+ written_line (write_succeeds Samples.env_disk_full a) 42
       +:+ (if twice
            then written_line (write_succeeds Samples.env_disk_full (S a)) 42
            else "").
Proof.
  intros w w' a twice.
  pose proof (log_lines_of_one_message Samples.env_disk_full Samples.hello
                (initial_world None) eq_refl) as H.
  split; [exact (proj1 H) | exact (proj1 (proj2 H))].
Defined.

(** The message "Hello" is answered and its reply goes through: with a log
    that takes every write its id is written twice; with one that refuses
    them two writes are attempted and the log stays missing. *)
Example log_lines_example :
  log_text (exec (process_message Samples.env_inbox Samples.hello)
              (initial_world None))
  = "42" +:+ nl +:+ "42" +:+ nl
  /\ processed_file (exec (process_message Samples.env_disk_full Samples.hello)
                       (initial_world None)) = None
  /\ write_attempts (exec (process_message Samples.env_disk_full Samples.hello)
                       (initial_world None)) = 2%nat.
Proof. repeat split; vm_compute; reflexivity. Qed.

(** ** The prompt the loop sends *)

Lemma py_last_snoc_last {A} (n : nat) (l : list A) (x : A) :
  (0 < n)%nat -> py_last n (l ++ [x]) = (py_last (n - 1) l ++ [x])%list.
Proof.
  intros Hn. unfold py_last. rewrite length_app. simpl.
  rewrite drop_app_le by lia. do 2 f_equal. lia.
Qed.

Lemma lines_of_snoc (turns : list turn) (t : turn) :
  lines_of (turns ++ [t]) = lines_of turns +:+ turn_line t.
Proof.
  induction turns as [|t' turns IH].
  - cbn. now rewrite append_nil_r.
  - cbn [app lines_of foldr]. fold (lines_of (turns ++ [t])).
    fold (lines_of turns). now rewrite IH, append_assoc.
Qed.

Lemma render_history_snoc (l : list turn) (t : turn) :
  render_history (l ++ [t])
  = "Previous conversation:" +:+ nl
    +:+ lines_of (py_last MAX_HISTORY (l ++ [t])) +:+ nl.
Proof. rewrite render_history_eq. now destruct l. Qed.

(** X11: the prompt sent for a private message that passes the filter
    always has a history block, and the block ends with the message itself
    as a "User" turn, because the message is added to the memory before the
    prompt is built: the text of the message is in the prompt twice. *)
Theorem prompt_repeats_message (e : env) (msg : message) (w : world) :
  skipped msg (processed_ids w) = false -> is_private msg = true ->
  exists earlier,
    prompts_sent (events_since w (exec (process_message e msg) w))
    = [KNOWLEDGE e +:+ nl +:+ nl +:+ "    Previous conversation:" +:+ nl
       +:+ earlier
       +:+ "User: " +:+ msg_text msg +:+ nl +:+ nl
       +:+ "Current message: " +:+ msg_text msg +:+ instruction_suffix].
Proof.
  intros Hs Hp. rewrite process_message_prompts, Hs, Hp.
  unfold build_prompt_with_history. cbn [fst].
  rewrite history_of_touch, history_of_update.
  case_decide as Hu; [clear Hu | contradiction].
  rewrite (py_last_snoc_last (MAX_HISTORY * 2)) by (unfold MAX_HISTORY; lia).
  rewrite render_history_snoc.
  rewrite (py_last_snoc_last MAX_HISTORY) by (unfold MAX_HISTORY; lia).
  rewrite lines_of_snoc.
  exists (lines_of
            (py_last (MAX_HISTORY - 1)
               (py_last (MAX_HISTORY * 2 - 1)
                  (history_of (conversation_history w) (sender_id msg))))).
  unfold prompt_template, turn_line. cbn [fst snd].
  change "    Previous conversation:" with ("    " +:+ "Previous conversation:").
  change "User: " with ("User" +:+ ": ").
  rewrite !append_assoc. reflexivity.
Qed.

Lemma prompt_repeats_message_witness :
  exists earlier,
    prompts_sent
      (events_since (initial_world None)
         (exec (process_message Samples.env_hi Samples.hello) (initial_world None)))
    = [KNOWLEDGE Samples.env_hi +:+ nl +:+ nl +:+ "    Previous conversation:" +:+ nl
       +:+ earlier
       +:+ "User: " +:+ msg_text Samples.hello +:+ nl +:+ nl
       +:+ "Current message: " +:+ msg_text Samples.hello +:+ instruction_suffix].
Proof.
  apply (prompt_repeats_message Samples.env_hi Samples.hello (initial_world None));
    reflexivity.
Defined.

(** ** What the cleanup forgets *)

(** X12: the cleanup never touches the log or the memory of turns.  When
    more than 600 seconds have passed it sets the last check to the second
    clock reading, whether or not the set was cut; otherwise it changes
    nothing but the trace.  When it cuts a set of more than 1000 ids,
    exactly 1000 stay, so at least one id is forgotten in memory, and a
    message with that id is no longer skipped; when the log held every id
    of the set before, the forgotten id is still in the log after. *)
Theorem cleanup_forgets (e : env) (w : world) :
  env_ok e ->
  let elapsed := (time_time e (length (trace w)) - last_check_time w)%Q in
  let w' := exec (periodic_cleanup e) w in
  processed_file w' = processed_file w
  /\ conversation_history w' = conversation_history w
  /\ ((600 # 1 < elapsed)%Q ->
      last_check_time w' = time_time e (S (S (length (trace w)))))
  /\ (~ (600 # 1 < elapsed)%Q ->
      last_check_time w' = last_check_time w
      /\ processed_ids w' = processed_ids w)
  /\ ((600 # 1 < elapsed)%Q -> (1000 < size (processed_ids w))%nat ->
      size (processed_ids w') = 1000%nat
      /\ exists x, x ∈ processed_ids w /\ (x ∉ processed_ids w')
                   /\ (processed_ids w
                         ⊆ load_processed_ids (processed_file w) ->
                       x ∈ load_processed_ids (processed_file w'))
                   /\ forall msg, msg_id msg = x -> out msg = false ->
                                  has_text msg = true ->
                                  skipped msg (processed_ids w') = false).
Proof.
  intros Hok elapsed w'. subst elapsed w'.
  destruct w as [ids f hist last tr att]. unfold periodic_cleanup. run_m.
  destruct (Qlt_bool _ _) eqn:Hq.
  - apply Qlt_bool_spec in Hq.
    assert (Hlen : length ((tr ++ [EClock (time_time e (length tr))])
                           ++ [EPrint PCleanup])%list = S (S (length tr))).
    { rewrite !length_app. simpl. lia. }
    destruct (1000 <? size ids)%nat eqn:Hn.
    + apply Nat.ltb_lt in Hn. rewrite Hlen.
      split; [reflexivity|]. split; [reflexivity|]. split; [reflexivity|].
      split; [intros Hno; contradiction|]. intros _ _.
      pose proof (kept_size e Hok ids) as Hsize.
      pose proof (kept_subset e Hok ids) as Hsub.
      split; [rewrite Hsize; lia|].
      set (ids' := list_to_set (py_last 1000 (set_order e ids)) : gset Z) in *.
      destruct (size_pos_elem_of (ids ∖ ids')) as [x Hx].
      { rewrite size_difference by assumption. lia. }
      apply elem_of_difference in Hx as [Hin Hout].
      exists x. split; [assumption|]. split; [assumption|].
      split; [intros Hlog; now apply Hlog|].
      intros msg <- Ho Ht. now apply skipped_false.
    + apply Nat.ltb_ge in Hn. rewrite Hlen.
      split; [reflexivity|]. split; [reflexivity|]. split; [reflexivity|].
      split; [intros Hno; contradiction | intros _ Hgt; lia].
  - split; [reflexivity|]. split; [reflexivity|].
    assert (Hno : ~ (600 # 1 < time_time e (length tr) - last)%Q).
    { intros Hlt. apply Qlt_bool_spec in Hlt. rewrite Hlt in Hq. discriminate. }
    split; [intros Hlt; contradiction|]. split; [now intros _|].
    intros Hlt. contradiction.
Qed.

Lemma cleanup_forgets_witness :
  let w := World Samples.many_ids many_log ∅ (0 # 1) [] 0 in
  let w' := exec (periodic_cleanup Samples.env_late) w in
  size (processed_ids w') = 1000%nat
  /\ exists x, x ∈ processed_ids w /\ (x ∉ processed_ids w')
               /\ x ∈ load_processed_ids (processed_file w').
Proof.
  intros w w'.
  assert (Hlog : load_processed_ids many_log = Samples.many_ids)
    by (vm_compute; reflexivity).
  assert (Hok : env_ok Samples.env_late) by (intros s; reflexivity).
  assert (Hbig : (1000 < size Samples.many_ids)%nat)
    by (apply Nat.ltb_lt; vm_compute; reflexivity).
  destruct (proj2 (proj2 (proj2 (proj2
              (cleanup_forgets Samples.env_late
                 (World Samples.many_ids many_log ∅ (0 # 1) [] 0) Hok))))
              eq_refl Hbig)
    as [Hsize [x [Hin [Hout [Hx _]]]]].
  split; [exact Hsize|]. exists x. split; [exact Hin|]. split; [exact Hout|].
  apply Hx. cbn [processed_ids processed_file]. now rewrite Hlog.
Defined.

(** ** Appending one turn *)

(** X13: [update_history] changes the history of no other user, and the
    turn it appends is always the last one stored.  Below 20 stored turns
    the history just grows; at 20 the oldest turn is dropped to make
    room. *)
Theorem update_history_keeps_newest (u : Z) (r m : string) (h : history_store) :
  let old := history_of h u in
  let new := history_of (update_history u r m h) u in
  (forall u', u' <> u ->
     history_of (update_history u r m h) u' = history_of h u')
  /\ last new = Some (r, m)
  /\ ((length old < MAX_HISTORY * 2)%nat -> new = (old ++ [(r, m)])%list)
  /\ (length old = (MAX_HISTORY * 2)%nat ->
      new = (drop 1 old ++ [(r, m)])%list).
Proof.
  intros old new. subst old new. split; [|rewrite history_of_update].
  - intros u' Hne. rewrite history_of_update. case_decide; congruence.
  - case_decide as Hu; [clear Hu | contradiction].
    rewrite (py_last_snoc_last (MAX_HISTORY * 2)) by (unfold MAX_HISTORY; lia).
    split; [apply last_snoc|]. split.
    + intros Hlt. now rewrite py_last_short by lia.
    + intros Heq. unfold py_last. do 2 f_equal. rewrite Heq.
      unfold MAX_HISTORY. lia.
Qed.

Lemma update_history_keeps_newest_witness :
  history_of (update_history 7 "User" "hi" ∅) 7
  = (history_of ∅ 7 ++ [("User", "hi")])%list.
Proof.
  refine (proj1 (proj2 (proj2 (update_history_keeps_newest 7 "User" "hi" ∅))) _).
  unfold history_of. rewrite lookup_empty. cbn. lia.
Defined.

(** ** Session and login *)

Lemma clients_made_app (a b : list login_event) :
  clients_made (a ++ b) = (clients_made a ++ clients_made b)%list.
Proof.
  induction a as [|ev a IH]; [reflexivity|].
  destruct ev; simpl; now rewrite ?IH.
Qed.

Lemma clients_disconnected_app (a b : list login_event) :
  clients_disconnected (a ++ b)
  = (clients_disconnected a ++ clients_disconnected b)%list.
Proof.
  induction a as [|ev a IH]; [reflexivity|].
  destruct ev; simpl; now rewrite ?IH.
Qed.

Lemma tokens_written_app (a b : list login_event) :
  tokens_written (a ++ b) = (tokens_written a ++ tokens_written b)%list.
Proof.
  induction a as [|ev a IH]; [reflexivity|].
  destruct ev; simpl; now rewrite ?IH.
Qed.

(** Case analysis on what the collaborators answer to one call of
    [main]. *)
Ltac main_cases le calls session :=
  cbn [main];
  destruct (is_user_authorized le calls (read_session session)) eqn:Hauth;
    [|destruct (telegram_login_request le calls (input le calls phone_prompt))
        as [status res] eqn:Hreq;
      cbn [fst snd];
      match goal with
      | |- context [(?s =? 200)%Z] => destruct (s =? 200)%Z eqn:Hstatus
      end;
      [match goal with
       | |- context [telegram_login_confirm le calls ?b] =>
           destruct (telegram_login_confirm le calls b)
             as [c_status c_res] eqn:Hconf
       end;
       cbn [fst snd];
       match goal with
       | |- context [(?s =? 200)%Z] => destruct (s =? 200)%Z eqn:Hc_status
       end|]];
  cbn [ending session_file login_trace].

(** X14: when [main] returns after a failed confirmation, every client it
    made has been disconnected: the one of the failing call once, and the
    one of each call that restarted [main] twice, at line 110 and again by
    the [finally] once the inner call has returned. *)
Theorem main_releases_clients (restarts : nat) (le : login_env) (calls : nat)
    (session : option string) :
  let run := main restarts le calls session in
  ending run = LoginFailed ->
  clients_disconnected (login_trace run)
  = (removelast (clients_made (login_trace run))
     ++ reverse (clients_made (login_trace run)))%list
  /\ forall c, c ∈ clients_made (login_trace run) ->
               c ∈ clients_disconnected (login_trace run).
Proof.
  intros run Hend.
  assert (H : clients_disconnected (login_trace run)
              = (removelast (clients_made (login_trace run))
                 ++ reverse (clients_made (login_trace run)))%list
              /\ clients_made (login_trace run) <> []).
  { subst run. revert calls session Hend.
    induction restarts as [|n IH]; intros calls session;
      main_cases le calls session; try discriminate;
      try (intros _; split; [reflexivity | discriminate]).
    intros Hend. destruct (IH _ _ Hend) as [Hd Hne].
    set (inner := main n le (S calls) (Some (access_token c_res))) in *.
    rewrite Hend.
    rewrite <- !app_assoc. cbn [app clients_made clients_disconnected].
    rewrite clients_made_app, clients_disconnected_app, Hd.
    cbn [clients_made clients_disconnected]. rewrite app_nil_r.
    split; [|discriminate].
    destruct (clients_made (login_trace inner)) as [|c cs] eqn:Hm;
      [contradiction|].
    rewrite !reverse_cons. cbn [removelast app].
    now rewrite <- !app_assoc. }
  destruct H as [Hd Hne]. split; [assumption|].
  intros c Hc. rewrite Hd. apply elem_of_app. right. now apply elem_of_reverse.
Qed.

Lemma main_releases_clients_witness :
  clients_disconnected (login_trace (main 3 login_then_refusal 0 None))
  = (removelast (clients_made (login_trace (main 3 login_then_refusal 0 None)))
     ++ reverse (clients_made (login_trace (main 3 login_then_refusal 0 None))))%list.
Proof.
  apply (main_releases_clients 3 login_then_refusal 0 None).
  reflexivity.
Defined.

Example main_restart_example :
  clients_made (login_trace (main 3 login_then_refusal 0 None)) = [""; "tok"]
  /\ clients_disconnected (login_trace (main 3 login_then_refusal 0 None))
     = [""; "tok"; ""]
  /\ session_file (main 3 login_then_refusal 0 None) = Some " tok "
  /\ ending (main 3 login_then_refusal 0 None) = LoginFailed.
Proof. repeat split; reflexivity. Qed.

(** X15: a refused login request does not stop [main]: when the session
    is not authorized and the request is answered with a status other than
    200, no branch returns, nothing is written or disconnected, and [main]
    goes on to poll with the unauthorized client.  In general, whenever
    [main] reaches the polling part, its client was made from the content
    of the session file as it then is, and in that call either the session
    was authorized or the login request was refused. *)
Theorem polling_is_reached (restarts : nat) (le : login_env) (calls : nat)
    (session : option string) :
  let run := main restarts le calls session in
  (is_user_authorized le calls (read_session session) = false ->
   (telegram_login_request le calls (input le calls phone_prompt)).1 <> 200 ->
   ending run = Polls (read_session session)
   /\ session_file run = session
   /\ tokens_written (login_trace run) = []
   /\ clients_disconnected (login_trace run) = [])
  /\ (forall s, ending run = Polls s ->
        s = read_session (session_file run)
        /\ exists c, (calls <= c <= calls + restarts)%nat
             /\ (is_user_authorized le c s = true
                 \/ (telegram_login_request le c (input le c phone_prompt)).1
                    <> 200)).
Proof.
  intros run. subst run. split.
  - intros Hno Hrefused. destruct restarts as [|n]; cbn [main];
      rewrite Hno; apply Z.eqb_neq in Hrefused; rewrite Hrefused;
      now repeat split.
  - revert calls session. induction restarts as [|n IH]; intros calls session s;
      main_cases le calls session; try discriminate;
      try (intros [= <-]; split; [reflexivity|]; exists calls;
           split; [lia|]; first [now left | right; rewrite Hreq; cbn [fst];
                                 now apply Z.eqb_neq]).
    intros Hend. destruct (IH _ _ _ Hend) as [Hs [c [Hc Hwhy]]].
    split; [assumption|]. exists c. split; [lia | assumption].
Qed.

Lemma polling_is_reached_witness :
  ending (main 2 (sample_login 403 200) 0 None) = Polls (read_session None).
Proof.
  refine (proj1 (proj1 (polling_is_reached 2 (sample_login 403 200) 0 None) _ _));
    [reflexivity | discriminate].
Defined.

Lemma last_token (session : option string) (t : string) (ts : list string) :
  from_option Some session (last (t :: ts)) = from_option Some (Some t) (last ts).
Proof. rewrite last_cons. now destruct (last ts). Qed.

(** X16: the session file holds the token written last, and is unchanged
    when none was written; every token written is the access token of a
    confirmation answered with status 200; and each restarted call makes
    its client from the token just written, stripped of surrounding white
    space. *)
Theorem session_file_holds_last_token (restarts : nat) (le : login_env)
    (calls : nat) (session : option string) :
  let run := main restarts le calls session in
  let tokens := tokens_written (login_trace run) in
  session_file run = from_option Some session (last tokens)
  /\ (forall t, t ∈ tokens ->
        exists c body, (calls <= c)%nat
          /\ (telegram_login_confirm le c body).1 = 200
          /\ access_token (telegram_login_confirm le c body).2 = t)
  /\ (ending run <> Unfinished ->
      clients_made (login_trace run)
      = read_session session :: (PyStr.strip <$> tokens)).
Proof.
  intros run tokens. subst run tokens. revert calls session.
  induction restarts as [|n IH]; intros calls session;
    main_cases le calls session;
    try (split; [reflexivity|]; split; [intros t Ht; inversion Ht|];
         intros _; reflexivity).
  - split; [reflexivity|]. split; [|intros H; contradiction].
    intros t Ht. apply list_elem_of_singleton in Ht as ->.
    eexists calls, _. split; [lia|]. rewrite Hconf. cbn [fst snd].
    split; [now apply Z.eqb_eq | reflexivity].
  - destruct (IH (S calls) (Some (access_token c_res))) as [Hfile [Htok Hmade]].
    set (inner := main n le (S calls) (Some (access_token c_res))) in *.
    rewrite <- !app_assoc. cbn [app tokens_written clients_made].
    rewrite tokens_written_app, clients_made_app.
    assert (Htail : forall l : list login_event,
              (l = [LDisconnect (read_session session)] \/ l = []) ->
              tokens_written l = [] /\ clients_made l = []).
    { intros l [-> | ->]; now split. }
    destruct (Htail (match ending inner with
                     | LoginFailed => [LDisconnect (read_session session)]
                     | _ => []
                     end)) as [-> ->]; [destruct (ending inner); auto|].
    rewrite !app_nil_r. split; [now rewrite last_token|]. split.
    + intros t [-> | Ht]%elem_of_cons.
      * eexists calls, _. split; [lia|]. rewrite Hconf. cbn [fst snd].
        split; [now apply Z.eqb_eq | reflexivity].
      * destruct (Htok t Ht) as [c [body [Hc H]]].
        exists c, body. split; [lia | assumption].
    + intros Hend. rewrite (Hmade Hend). reflexivity.
Qed.

Lemma session_file_holds_last_token_witness :
  clients_made (login_trace (main 3 login_then_refusal 0 None))
  = read_session None
    :: (PyStr.strip
          <$> tokens_written (login_trace (main 3 login_then_refusal 0 None))).
Proof.
  refine (proj2 (proj2 (session_file_holds_last_token 3 login_then_refusal
                          0 None)) _).
  discriminate.
Defined.
